(** * numy-app maintenance scripts: a shallow embedding

    The repository ships three Python scripts under [scripts/]:

    - [validate-pm.py]: walks the tree and rejects foreign lockfiles and
      [package.json] files that do not pin [yarn@4.12.0];
    - [deploy_tool_versions.py]: writes a [.tool-versions] file next to
      every [package.json];
    - [update_coin_id_metadata.py]: rewrites the title and subtitle of
      every store locale.

    Part I holds the definitions (one module per script, plus [Py] for
    the pieces of the Python library they call and [Machine] for the
    machine they run on); Part II the facts. *)

From Stdlib Require Import String Ascii List ZArith Bool Lia.
From stdpp Require Import base option list strings gmap sorting.

Set Warnings "-register-all".
Open Scope string_scope.
Open Scope list_scope.

(* ===================================================================== *)
(** * Part I: definitions *)
(* ===================================================================== *)

(** ** The Python library as the scripts use it *)
Module Py.

(** Values produced by [json.load]. A JSON object is loaded into a
    [dict], whose keys keep their insertion order: an association list. *)
Inductive json : Type :=
| JNull
| JBool (b : bool)
| JInt (n : Z)
| JFloat (literal : string)
| JStr (s : string)
| JArr (items : list json)
| JObj (members : list (string * json)).

Abbreviation dict := (list (string * json)).

(** [d.get(k)] on a [dict]: the first (only) binding of [k]. *)
Fixpoint dict_lookup (k : string) (d : dict) : option json :=
  match d with
  | [] => None
  | (k', v) :: d' => if String.eqb k' k then Some v else dict_lookup k d'
  end.

(** [d[k] = v] on a [dict]: an existing key keeps its position, a new
    key goes last. *)
Fixpoint dict_setitem (k : string) (v : json) (d : dict) : dict :=
  match d with
  | [] => [(k, v)]
  | (k', v') :: d' =>
      if String.eqb k' k then (k', v) :: d' else (k', v') :: dict_setitem k v d'
  end.

(** The exceptions the scripts can meet. *)
Inductive exn : Type :=
| FileNotFoundError
| PermissionError
| JSONDecodeError
| AttributeError
| KeyError
| TypeError
| IsADirectoryError
| NotADirectoryError
| UnicodeDecodeError
| UnicodeEncodeError
| ValueError
| RecursionError
| OSError
| OtherError (name : string).

(** The name [type(v).__name__] of a loaded value, as it appears in the
    text of an [AttributeError]. *)
Definition type_name (v : json) : string :=
  match v with
  | JNull => "NoneType"
  | JBool _ => "bool"
  | JInt _ => "int"
  | JFloat _ => "float"
  | JStr _ => "str"
  | JArr _ => "list"
  | JObj _ => "dict"
  end.

(** The library functions whose text output the scripts pass through:
    [json.load] on the text of a file (or the message of the exception
    it raises), [json.dumps(_, ensure_ascii=False, indent=2)], and
    [repr]. *)
Class Library : Type := {
  json_load : string -> json + string;
  json_dumps : json -> string;
  repr : json -> string
}.

Definition newline : string := String (ascii_of_nat 10) EmptyString.

(** [s.endswith(suffix)]. *)
Definition endswith (s suffix : string) : bool :=
  let n := String.length s in
  let m := String.length suffix in
  (m <=? n)%nat && String.eqb (substring (n - m) m s) suffix.

(** [s.startswith(prefix)]. *)
Definition startswith (s pre : string) : bool := String.prefix pre s.

(** [os.path.join(a, b)] (posixpath). *)
Definition path_join (a b : string) : string :=
  if startswith b "/" then b
  else if String.eqb a "" || endswith a "/" then a +:+ b
  else a +:+ "/" +:+ b.

(** [x in xs] for a list of names. *)
Definition contains (x : string) (xs : list string) : bool :=
  existsb (String.eqb x) xs.

(** [xs.remove(x)]: drops the first occurrence. *)
Fixpoint list_remove (x : string) (xs : list string) : list string :=
  match xs with
  | [] => []
  | y :: ys => if String.eqb x y then ys else y :: list_remove x ys
  end.

(** *** The directory tree seen by [os.walk]

    An entry of a directory is a sub-directory or something else (a
    regular file, or a link). What the scripts ask of a file is to open
    it for reading: the open either fails with a message or yields the
    text. A directory that cannot be listed is walked like an empty one
    ([os.walk] swallows the error), and a link to a directory is listed
    among [dirs] but never entered, so neither needs a constructor. *)
Inductive content : Type :=
| Unreadable (message : string)
| Text (text : string).

Inductive node : Type :=
| File (c : content)
| Dir (entries : list (string * node)).

Abbreviation listing := (list (string * node)).

Definition is_dir (n : node) : bool :=
  match n with Dir _ => true | File _ => false end.

(** The two lists [os.walk] yields for a directory. *)
Definition dirnames (es : listing) : list string :=
  map fst (filter (fun e => is_dir (snd e)) es).

Definition filenames (es : listing) : list string :=
  map fst (filter (fun e => negb (is_dir (snd e))) es).

(** The file of that name in the directory, as [open] finds it. *)
Fixpoint open_here (name : string) (es : listing) : option content :=
  match es with
  | [] => None
  | (n, File c) :: es' => if String.eqb n name then Some c else open_here name es'
  | (_, Dir _) :: es' => open_here name es'
  end.

(** The sub-directory of that name, as the next [scandir] finds it. *)
Fixpoint subdir (name : string) (es : listing) : option listing :=
  match es with
  | [] => None
  | (n, Dir sub) :: es' => if String.eqb n name then Some sub else subdir name es'
  | (_, File _) :: es' => subdir name es'
  end.

(** The body of a [for root, dirs, files in os.walk(top)] loop: it reads
    [root], [dirs] and [files] (and opens files of the directory), may
    edit [dirs] in place, and updates the state of the script. *)
Definition loop_body (S : Type) : Type :=
  string -> list string -> list string -> listing -> S -> list string * S.

(** [os.walk(top)], top-down, driving a loop body: the directory is
    yielded first, and the walk then enters, in order, the names the body
    left in [dirs]. *)
Fixpoint os_walk {S : Type} (body : loop_body S) (root : string) (n : node)
    (s : S) {struct n} : S :=
  match n with
  | File _ => s
  | Dir es =>
      let '(dirs, s1) := body root (dirnames es) (filenames es) es s in
      fold_left
        (fun acc d =>
           (fix enter (l : listing) : S :=
              match l with
              | [] => acc
              | (name, sub) :: l' =>
                  if String.eqb name d && is_dir sub
                  then os_walk body (path_join root d) sub acc
                  else enter l'
              end) es)
        dirs s1
  end.

(** The directories a walk from [root] reaches when it never enters a
    directory whose name is in [skip]: each with the path [os.walk]
    reports for it. *)
Inductive walked (skip : list string) (root : string) (es : listing)
  : string -> listing -> Prop :=
| walked_top : walked skip root es root es
| walked_sub (d : string) (sub : listing) (root' : string) (es' : listing) :
    subdir d es = Some sub ->
    contains d skip = false ->
    walked skip (path_join root d) sub root' es' ->
    walked skip root es root' es'.

(** A loop body that only records the directory it is given, after
    editing [dirs] with [prune]: the walk then returns the directories
    it yields, in order. *)
Definition record_visit (prune : list string -> list string)
    : loop_body (list (string * listing)) :=
  fun root dirs _ es acc => (prune dirs, acc ++ [(root, es)]).

Definition visits (prune : list string -> list string) (root : string)
    (n : node) : list (string * listing) :=
  os_walk (record_visit prune) root n [].

(** A property of listings that holds of a directory and of every
    directory below it. *)
Fixpoint everywhere (P : listing -> Prop) (n : node) : Prop :=
  match n with
  | File _ => True
  | Dir es =>
      P es
      /\ (fix all (l : listing) : Prop :=
            match l with
            | [] => True
            | (_, sub) :: l' => everywhere P sub /\ all l'
            end) es
  end.

(** The directories below [d], for a name the body left in [dirs]. *)
Definition below (prune : list string -> list string) (root : string)
    (es : listing) (d : string) : list (string * listing) :=
  match subdir d es with
  | Some sub => visits prune (path_join root d) (Dir sub)
  | None => []
  end.

(** [prune] keeps exactly the names outside [skip]. *)
Definition prunes (prune : list string -> list string) (skip : list string)
    (es : listing) : Prop :=
  forall d, d ∈ prune (dirnames es) <-> d ∈ dirnames es /\ contains d skip = false.

(** A directory with the content of every sub-directory named in [skip]
    emptied, at every level. *)
Fixpoint hollow (skip : list string) (n : node) : node :=
  match n with
  | File c => File c
  | Dir es =>
      Dir (map (fun e =>
                  match e with
                  | (name, sub) =>
                      (name,
                       if is_dir sub && contains name skip
                       then Dir []
                       else hollow skip sub)
                  end) es)
  end.

Definition hollow_entries (skip : list string) (es : listing) : listing :=
  map (fun e => (fst e,
                 if is_dir (snd e) && contains (fst e) skip
                 then Dir []
                 else hollow skip (snd e))) es.

End Py.

(** ** [scripts/validate-pm.py] *)
Module ValidatePm.
Import Py.

Definition ignored_dirs : list string :=
  ["node_modules"; ".git"; ".yarn"; "build"; "dist"; ".next"].

(** What the run leaves behind: the arguments of its [print] calls and
    the status [sys.exit] was called with, if it was. *)
Record outcome : Type := {
  printed : list string;
  exit_status : option Z
}.

(** [data.get('packageManager')]: [None] when the key is missing, an
    [AttributeError] (here: its message) when [data] is not a [dict]. *)
Definition get_package_manager (data : json) : json + string :=
  match data with
  | JObj d => inl (default JNull (dict_lookup "packageManager" d))
  | v => inr ("'" +:+ type_name v +:+ "' object has no attribute 'get'")
  end.

(** [pm != 'yarn@4.12.0']. *)
Definition pm_differs (pm : json) : bool :=
  match pm with
  | JStr s => negb (String.eqb s "yarn@4.12.0")
  | _ => true
  end.

(** The [try] block for one [package.json]: the errors it appends. *)
Definition check_package_json `{Library} (pkg_path : string) (c : content)
    : list string :=
  let failed e := ["Error reading " +:+ pkg_path +:+ ": " +:+ e] in
  match c with
  | Unreadable e => failed e
  | Text t =>
      match json_load t with
      | inr e => failed e
      | inl data =>
          match get_package_manager data with
          | inr e => failed e
          | inl pm =>
              if pm_differs pm
              then ["Invalid packageManager in " +:+ pkg_path
                    +:+ ": expected 'yarn@4.12.0', found " +:+ repr pm]
              else []
          end
      end
  end.

Definition forbidden (root name : string) (files : list string) : list string :=
  if contains name files
  then ["Forbidden file found: " +:+ path_join root name]
  else [].

(** [dirs[:] = [d for d in dirs if d not in ignored_dirs]]. *)
Definition prune (dirs : list string) : list string :=
  filter (fun d => negb (contains d ignored_dirs)) dirs.

(** The checks of one directory, appending to [errors]. *)
Definition report `{Library} (root : string) (files : list string) (es : listing)
    (errors : list string) : list string :=
  let errors := errors ++ forbidden root "package-lock.json" files in
  let errors := errors ++ forbidden root "pnpm-lock.yaml" files in
  if contains "package.json" files then
    let pkg_path := path_join root "package.json" in
    errors ++ check_package_json pkg_path
                (default (Unreadable "No such file or directory")
                         (open_here "package.json" es))
  else errors.

(** The body of the loop over [os.walk('.')]; the state is [errors]. *)
Definition visit `{Library} : loop_body (list string) :=
  fun root dirs files es errors => (prune dirs, report root files es errors).

Definition collect_errors `{Library} (cwd : listing) : list string :=
  os_walk visit "." (Dir cwd) [].

Definition success_message : string :=
  "Package manager validation successful: All projects use yarn@4.12.0 and no forbidden lockfiles found.".

Definition check_package_managers `{Library} (cwd : listing) : outcome :=
  let errors := collect_errors cwd in
  match errors with
  | _ :: _ => {| printed := [String.concat newline errors]; exit_status := Some 1%Z |}
  | [] => {| printed := [success_message]; exit_status := None |}
  end.

(** *** The rule the script enforces, stated on the tree *)

Definition package_manager_field (v : json) : option json :=
  match v with
  | JObj d => dict_lookup "packageManager" d
  | _ => None
  end.

(** A [package.json] is bad when it cannot be read, cannot be parsed, or
    its [packageManager] field is not the string [yarn@4.12.0]; a
    missing field counts. *)
Definition bad_package_json `{Library} (c : content) : Prop :=
  match c with
  | Unreadable _ => True
  | Text t =>
      match json_load t with
      | inr _ => True
      | inl v => package_manager_field v <> Some (JStr "yarn@4.12.0")
      end
  end.

Definition offending `{Library} (es : listing) : Prop :=
  contains "package-lock.json" (filenames es) = true
  \/ contains "pnpm-lock.yaml" (filenames es) = true
  \/ exists c, open_here "package.json" es = Some c /\ bad_package_json c.

Definition violation `{Library} (cwd : listing) : Prop :=
  exists root es, walked ignored_dirs "." cwd root es /\ offending es.

End ValidatePm.

(** ** The machine the scripts run on

    The two scripts that write files ask the machine to open, read,
    write and close files, to list a directory and to print. What the
    machine answers is not the scripts' business: any of these can fail,
    with any exception. A world therefore holds the answers the machine
    will give (to whatever is asked of it next, by position) and the
    operations asked of it so far. *)
Module Machine.
Import Py.

Inductive operation : Type :=
| OpenRead (path : string)
| OpenWrite (path : string)
| Close (path : string)
| JsonLoad (path : string)
| JsonDump (path : string) (data : json)
| Write (path : string) (s : string)
| ListDir (path : string)
| Print (line : string).

(** What an operation gives back when it does not raise: [json.load] a
    value, [os.listdir] the names, the others nothing. *)
Definition response (o : operation) : Type :=
  match o with
  | JsonLoad _ => json
  | ListDir _ => list string
  | _ => unit
  end.

(** An operation that was asked, and the exception it raised, if any. *)
Record event : Type := {
  asked : operation;
  raised : option exn
}.

Definition event_of (o : operation) (r : response o + exn) : event :=
  {| asked := o;
     raised := match r with inl _ => None | inr e => Some e end |}.

(** An operation that went through, and one that raised. *)
Definition ok (o : operation) : event := {| asked := o; raised := None |}.
Definition ko (o : operation) (e : exn) : event := {| asked := o; raised := Some e |}.

Definition succeeded (ev : event) : Prop := raised ev = None.
Definition failed (ev : event) : Prop := raised ev <> None.

Record world : Type := {
  answer : nat -> forall o : operation, response o + exn;
  history : list event
}.

(** The same machine, [t] later. *)
Definition extend (w : world) (t : list event) : world :=
  {| answer := answer w; history := history w ++ t |}.

(** The machine's answer to [o] asked as the [k]-th operation from now. *)
Definition next (w : world) (k : nat) (o : operation) : response o + exn :=
  answer w (length (history w) + k) o.

(** A statement runs in a world and either returns a value or raises;
    the world it leaves is kept in both cases. *)
Definition run (A : Type) : Type := world -> (A + exn) * world.

Definition ret {A : Type} (a : A) : run A := fun w => (inl a, w).
Definition raise {A : Type} (e : exn) : run A := fun w => (inr e, w).
Definition bind {A B : Type} (c : run A) (k : A -> run B) : run B :=
  fun w =>
    match c w with
    | (inl a, w') => k a w'
    | (inr e, w') => (inr e, w')
    end.

Declare Scope run_scope.
Delimit Scope run_scope with run.
Notation "x <- c ;; k" := (bind c (fun x => k))
  (at level 100, c at next level, right associativity) : run_scope.
Notation "c ;;; k" := (bind c (fun _ => k))
  (at level 100, right associativity) : run_scope.

(** [for x in xs: body(x)]. *)
Fixpoint for_each {A : Type} (xs : list A) (body : A -> run unit) : run unit :=
  match xs with
  | [] => ret tt
  | x :: xs' => (body x ;;; for_each xs' body)%run
  end.

(** Asking the machine: the answer is the machine's, and the operation
    goes into the history whether it raised or not. *)
Definition perform (o : operation) : run (response o) :=
  fun w => (next w 0 o, extend w [event_of o (next w 0 o)]).

(** [with open(path, mode) as f: body]. The file is closed when the
    block is left, also by an exception; an exception raised by the
    closing is the one that leaves the statement. *)
Definition with_open {A : Type} (mode : string -> operation) (path : string)
    (body : run A) : run A :=
  fun w =>
    match perform (mode path) w with
    | (inr e, w1) => (inr e, w1)
    | (inl _, w1) =>
        match body w1 with
        | (r, w2) =>
            match perform (Close path) w2 with
            | (inr e, w3) => (inr e, w3)
            | (inl _, w3) => (r, w3)
            end
        end
    end.

(** The run returned normally. *)
Definition returns {A : Type} (r : (A + exn) * world) : Prop :=
  exists a, fst r = inl a.

(** The run raised to its caller. *)
Definition raises {A : Type} (r : (A + exn) * world) (e : exn) : Prop :=
  fst r = inr e.

(** A statement keeps to a plan: in every world it asks the operations
    of the plan, in order, and nothing else; it returns only after the
    whole plan, with every operation succeeded; and it raises only after
    an operation failed. *)
Definition keeps_to {A : Type} (plan : list operation) (c : run A) : Prop :=
  forall w, exists t,
    snd (c w) = extend w t
    /\ map asked t `prefix_of` plan
    /\ (returns (c w) -> map asked t = plan /\ Forall succeeded t)
    /\ (forall e, raises (c w) e -> Exists failed t).

(** A statement is confined to [P]: in every world, whether it returns
    or raises, every operation it asks satisfies [P]; and it returns
    only if every operation it asked went through. *)
Definition confined {A : Type} (P : operation -> Prop) (c : run A) : Prop :=
  forall w, exists t,
    snd (c w) = extend w t
    /\ Forall (fun ev => P (asked ev)) t
    /\ (returns (c w) -> Forall succeeded t).


End Machine.

(** ** [scripts/deploy_tool_versions.py] *)
Module DeployToolVersions.
Import Py Machine.

Definition tool_versions_content : string :=
"nodejs 25.2.1
yarn 4.12.0
ruby 3.4.7
java temurin-17.0.9+9
".

Definition created_line (path : string) : string :=
  "Created .tool-versions in " +:+ path.

Definition tool_versions_path (path : string) : string :=
  path_join path ".tool-versions".

Definition create_tool_versions (path : string) : run unit :=
  (let tv_path := path_join path ".tool-versions" in
   with_open OpenWrite tv_path (perform (Write tv_path tool_versions_content)) ;;;
   perform (Print ("Created .tool-versions in " +:+ path)))%run.

Definition skipped : list string := ["node_modules"; ".git"; ".expo"].

Definition drop (name : string) (dirs : list string) : list string :=
  if contains name dirs then list_remove name dirs else dirs.

(** The three guarded [dirs.remove] calls. *)
Definition prune (dirs : list string) : list string :=
  drop ".expo" (drop ".git" (drop "node_modules" dirs)).

(** The body of the loop over [os.walk(".")]. The state threaded through
    the walk is the run so far: a directory with a [package.json] adds
    its call after it, and a call that raises ends the run there. *)
Definition visit : loop_body (run unit) :=
  fun root dirs files _ so_far =>
    (prune dirs,
     if contains "package.json" files
     then (so_far ;;; create_tool_versions root)%run
     else so_far).

(** The script: the root first, then the walk. [cwd] is the tree as the
    scans of the walk find it. *)
Definition main (cwd : listing) : run unit :=
  os_walk visit "." (Dir cwd) (create_tool_versions ".").

Definition has_package_json (v : string * listing) : bool :=
  contains "package.json" (filenames (snd v)).

(** The directories [create_tool_versions] is called on, in order, in a
    run that no exception ends. *)
Definition targets (cwd : listing) : list string :=
  "." :: map fst (filter has_package_json (visits prune "." (Dir cwd))).

(** What one call asks of the machine. *)
Definition steps (path : string) : list operation :=
  [ OpenWrite (tool_versions_path path);
    Write (tool_versions_path path) tool_versions_content;
    Close (tool_versions_path path);
    Print (created_line path) ].

(** Names in a directory are unique, at every level. *)
Fixpoint unique_names (n : node) : bool :=
  match n with
  | File _ => true
  | Dir es =>
      bool_decide (NoDup (map fst es))
      && (fix all (l : listing) : bool :=
            match l with
            | [] => true
            | (_, sub) :: l' => unique_names sub && all l'
            end) es
  end.

End DeployToolVersions.

(** ** [scripts/update_coin_id_metadata.py] *)
Module UpdateCoinIdMetadata.
Import Py. Export Machine.

Definition locales_dir : string :=
  "/Users/fatih/mobile/numy/mobile/apps/numy/store-metadata/locales".
Definition store_config_path : string :=
  "/Users/fatih/mobile/numy/mobile/apps/numy/store.config.json".

Definition new_title : json := JStr "Coin ID: AI Scanner & Value".
Definition new_subtitle : json := JStr "Best AI Coin Identification".

(** [data.get(k, dflt)]. *)
Definition py_get (data : json) (k : string) (dflt : json) : run json :=
  match data with
  | JObj d => ret (default dflt (dict_lookup k d))
  | _ => raise AttributeError
  end.

(** [data[k]] with a string key. *)
Definition py_getitem (data : json) (k : string) : run json :=
  match data with
  | JObj d =>
      match dict_lookup k d with
      | Some v => ret v
      | None => raise KeyError
      end
  | _ => raise TypeError
  end.

(** [data[k] = v] with a string key; the object is changed in place, the
    model returns it. *)
Definition py_setitem (data : json) (k : string) (v : json) : run json :=
  match data with
  | JObj d => ret (JObj (dict_setitem k v d))
  | _ => raise TypeError
  end.

(** [data.items()]. *)
Definition py_items (data : json) : run dict :=
  match data with
  | JObj d => ret d
  | _ => raise AttributeError
  end.

Definition is_english (filepath : string) : bool :=
  endswith filepath "en-US.json" || endswith filepath "en-GB.json"
  || endswith filepath "en-AU.json" || endswith filepath "en-CA.json".

(** The [if]/[else] on the locale: what each branch assigns. *)
Definition rebrand (english : bool) (data : json) : run json :=
  (if english
   then data <- py_setitem data "title" new_title ;;
        py_setitem data "subtitle" new_subtitle
   else data <- py_setitem data "title" new_title ;;
        py_setitem data "subtitle" new_subtitle)%run.

(** [with open(path, 'r', encoding='utf-8') as f: data = json.load(f)]. *)
Definition load_json (path : string) : run json :=
  with_open OpenRead path (perform (JsonLoad path)).

(** [with open(path, 'w', encoding='utf-8') as f:
       json.dump(data, f, ensure_ascii=False, indent=2)].
    Opening for writing empties the file before anything is dumped. *)
Definition dump_json (path : string) (data : json) : run unit :=
  with_open OpenWrite path (perform (JsonDump path data)).

Definition update_json_file (filepath : string) : run unit :=
  (data <- load_json filepath ;;
   old_title <- py_get data "title" (JStr "") ;;
   old_subtitle <- py_get data "subtitle" (JStr "") ;;
   data <- rebrand (is_english filepath) data ;;
   dump_json filepath data)%run.

(** The loop over [store_config["apple"]["info"].items()]: each [info]
    is changed in place, so the loop leaves new members behind. It stops
    at the first [info] that takes no item assignment. *)
Fixpoint retitle_infos (items : dict) : run dict :=
  match items with
  | [] => ret []
  | (locale, info) :: rest =>
      (info <- py_setitem info "title" new_title ;;
       info <- py_setitem info "subtitle" new_subtitle ;;
       rest <- retitle_infos rest ;;
       ret ((locale, info) :: rest))%run
  end.

(** The same loop on the loaded configuration: the members of
    [apple.info] are replaced where they stand. *)
Definition update_store_config (store_config : json) : run json :=
  (apple <- py_getitem store_config "apple" ;;
   infos <- py_getitem apple "info" ;;
   items <- py_items infos ;;
   items <- retitle_infos items ;;
   apple <- py_setitem apple "info" (JObj items) ;;
   py_setitem store_config "apple" apple)%run.

(** The loop over [os.listdir(locales_dir)] at the top of the script. *)
Definition update_locales (names : list string) : run unit :=
  for_each names (fun filename =>
    if endswith filename ".json"
    then update_json_file (path_join locales_dir filename)
    else ret tt).

(** The statements on [store.config.json]: load, loop, dump. *)
Definition rewrite_store_config : run unit :=
  (store_config <- load_json store_config_path ;;
   store_config <- update_store_config store_config ;;
   dump_json store_config_path store_config)%run.

(** The last statement of the script. *)
Definition success_line : string :=
  "Successfully updated all locales and store.config.json".

Definition main : run unit :=
  (names <- perform (ListDir locales_dir) ;;
   update_locales names ;;;
   rewrite_store_config ;;;
   perform (Print "Successfully updated all locales and store.config.json"))%run.

(** What both branches of [update_json_file] do to a document. *)
Definition retitle (d : dict) : dict :=
  dict_setitem "subtitle" new_subtitle (dict_setitem "title" new_title d).

(** One locale of [apple.info] before and after the loop: same name, and
    the members retitled. *)
Definition retitled (before after : string * json) : Prop :=
  fst after = fst before
  /\ exists d, snd before = JObj d /\ snd after = JObj (retitle d).

(** What the loop over [apple.info] needs of the configuration: an
    object with an object [apple], with an object [info], whose members
    are all objects. *)
Definition well_formed_config (store_config : json) : Prop :=
  exists c a infos,
    store_config = JObj c
    /\ dict_lookup "apple" c = Some (JObj a)
    /\ dict_lookup "info" a = Some (JObj infos)
    /\ Forall (fun item => exists d, snd item = JObj d) infos.

(** The configuration after the loop: everything where it was, and the
    members of every locale of [apple.info] retitled. *)
Definition config_retitled (before after : json) : Prop :=
  exists c a infos infos',
    before = JObj c
    /\ dict_lookup "apple" c = Some (JObj a)
    /\ dict_lookup "info" a = Some (JObj infos)
    /\ Forall2 retitled infos infos'
    /\ after = JObj (dict_setitem "apple"
                       (JObj (dict_setitem "info" (JObj infos') a)) c).

(** The six operations of a call of [update_json_file] that reaches its
    end, dumping [data]. *)
Definition update_steps (filepath : string) (data : json) : list operation :=
  [ OpenRead filepath; JsonLoad filepath; Close filepath;
    OpenWrite filepath; JsonDump filepath data; Close filepath ].

(** A path the loop over the listing [names] calls [update_json_file]
    on. *)
Definition locale_file (names : list string) (path : string) : Prop :=
  exists filename,
    filename ∈ names /\ endswith filename ".json" = true
    /\ path = path_join locales_dir filename.

(** The operations of a load or a dump on [path]. *)
Definition on_json (path : string) (o : operation) : Prop :=
  match o with
  | OpenRead p | OpenWrite p | Close p | JsonLoad p | JsonDump p _ => p = path
  | Write _ _ | ListDir _ | Print _ => False
  end.

(** The operations within the script's reach once the locales directory
    listed [names]: the files of the loop, [store.config.json], and the
    printing of the last line. *)
Definition within (names : list string) (o : operation) : Prop :=
  match o with
  | OpenRead p | OpenWrite p | Close p | JsonLoad p | JsonDump p _ =>
      p = store_config_path \/ locale_file names p
  | Print line => line = success_line
  | Write _ _ | ListDir _ => False
  end.

End UpdateCoinIdMetadata.

(** ** The hybrid cache of the specification

    None of the cache lives under [scripts/]; the definitions of this
    module follow the specification's own description of it. *)
Module Cache.

(** Modelled from the spec: the operation kinds of an OperationRequest
    (section 3); an agent task carries its category, and [OtherKind]
    stands for any kind outside the enumeration. The cache sources are
    missing. *)
Inductive kind : Type :=
| ReadFile
| ListDir
| Search
| ShellCommand
| RemoteFetch
| RemoteSearch
| AgentTask (category : string)
| OtherKind (name : string).

(** Modelled from the spec: the ordered mapping of named parameter values
    of an OperationRequest (section 3). *)
Definition parameters : Type := list (string * string).

(** Modelled from the spec: the InvalidationDescriptor of section 3, a
    modification time, a source-control revision id or a time-bucket id. *)
Inductive descriptor : Type :=
| ModificationTime (t : Z)
| Revision (id : string)
| TimeBucket (n : Z).

(** Modelled from the spec: descriptors compared at read time (glossary,
    invalidation descriptor). *)
Definition descriptor_eqb (a b : descriptor) : bool :=
  match a, b with
  | ModificationTime x, ModificationTime y => (x =? y)%Z
  | Revision x, Revision y => String.eqb x y
  | TimeBucket x, TimeBucket y => (x =? y)%Z
  | _, _ => false
  end.

(** Modelled from the spec: the CacheEntry of section 3 (the compression
    ratio, a float, is left out). *)
Record entry : Type := {
  key : string;
  operationKind : kind;
  params : parameters;
  resultPayload : string;
  storedAt : Z;
  invalidationDescriptor : descriptor;
  compressed : bool
}.

(** Modelled from the spec: one file of the on-disk local cache layout
    (section 6): the serialized entry, the size of the file in bytes and
    its modification time. *)
Record slot : Type := {
  slot_entry : entry;
  slot_size : nat;
  slot_mtime : Z
}.

(** Modelled from the spec: the CacheResult of section 3, reduced to hit
    with payload and age, or miss. *)
Inductive cache_result : Type :=
| Hit (payload : string) (ageSeconds : Z)
| Miss.

(** Modelled from the spec: what the Local backend takes from its
    collaborators at the time of a call: the clock, the Fingerprint
    Generator (section 4.1), the TTL per operation kind and the size
    budget of the configuration surface (section 6), and the Compression
    Codec (section 4.5), whose [decompress] fails on corrupt input. *)
Record context : Type := {
  now : Z;
  deriveKey : kind -> parameters -> option string;
  deriveInvalidationDescriptor : kind -> parameters -> descriptor;
  ttl : kind -> Z;
  size_budget : nat;
  compress : string -> string * bool;
  decompress : string -> option string
}.

(** Modelled from the spec: the age of an entry at lookup time. *)
Definition age (c : context) (e : entry) : Z := (now c - storedAt e)%Z.

(** Modelled from the spec: [lookup] of the Local backend (section 4.2):
    derive the key; absent is a miss; an expired entry is deleted and
    missed; a descriptor that no longer matches the re-derived one is
    deleted and missed; otherwise the payload is decompressed (a corrupt
    one is deleted and missed, section 4.5) and returned as a hit. *)
Definition lookup (c : context) (k : kind) (p : parameters)
    (st : gmap string slot) : cache_result * gmap string slot :=
  match deriveKey c k p with
  | None => (Miss, st)
  | Some key =>
      match st !! key with
      | None => (Miss, st)
      | Some s =>
          let e := slot_entry s in
          if (ttl c k <=? age c e)%Z then (Miss, delete key st)
          else if negb (descriptor_eqb (invalidationDescriptor e)
                          (deriveInvalidationDescriptor c k p))
          then (Miss, delete key st)
          else
            match (if compressed e then decompress c (resultPayload e)
                   else Some (resultPayload e)) with
            | Some v => (Hit v (age c e), st)
            | None => (Miss, delete key st)
            end
      end
  end.

(** Modelled from the spec: the sum of all local entries (section 4.2). *)
Definition usage (st : gmap string slot) : nat :=
  sum_list_with (fun ks => slot_size (snd ks)) (map_to_list st).

(** Modelled from the spec: usage has fallen to 80% of the budget. *)
Definition within_target (budget : nat) (st : gmap string slot) : bool :=
  (100 * usage st <=? 80 * budget)%nat.

(** Modelled from the spec: oldest by modification time first. *)
Definition older (a b : string * slot) : Prop :=
  (slot_mtime (snd a) <= slot_mtime (snd b))%Z.

(** Modelled from the spec: modification times are compared to order
    the entries (section 4.2). *)
#[global] Instance older_dec : RelDecision older :=
  fun a b => Z_le_dec (slot_mtime (snd a)) (slot_mtime (snd b)).

(** Modelled from the spec: delete entries, oldest first, until usage
    falls to 80% of the budget (section 4.2). *)
Fixpoint evict (budget : nat) (oldest_first : list (string * slot))
    (st : gmap string slot) : gmap string slot :=
  match oldest_first with
  | [] => st
  | (key, _) :: rest =>
      if within_target budget st then st
      else evict budget rest (delete key st)
  end.

(** Modelled from the spec: the size budget enforced before a write: if
    the sum of all local entries exceeds the ceiling, evict (section
    4.2). *)
Definition enforce_budget (budget : nat) (st : gmap string slot)
    : gmap string slot :=
  if (usage st <=? budget)%nat then st
  else evict budget (merge_sort older (map_to_list st)) st.

(** Modelled from the spec: [store] of the Local backend (section 4.2):
    enforce the size budget, serialize and compress the entry, write it
    under its key, return the key; a request with no key is not stored. *)
Definition store (c : context) (k : kind) (p : parameters) (payload : string)
    (mtime : Z) (st : gmap string slot) : option string * gmap string slot :=
  match deriveKey c k p with
  | None => (None, st)
  | Some key =>
      let st1 := enforce_budget (size_budget c) st in
      let '(bytes, was_compressed) := compress c payload in
      let e := {| key := key; operationKind := k; params := p;
                  resultPayload := bytes; storedAt := now c;
                  invalidationDescriptor := deriveInvalidationDescriptor c k p;
                  compressed := was_compressed |} in
      (Some key,
       <[key := {| slot_entry := e; slot_size := String.length bytes;
                   slot_mtime := mtime |}]> st1)
  end.

(** Modelled from the spec: the three backends of section 2. *)
Inductive backend : Type := Local | Remote | Similarity.

(** Modelled from the spec: the operations every backend offers to the
    Router (sections 4.2 to 4.4), over the joint state [S] of the three
    stores. *)
Record backends (S : Type) : Type := {
  backend_lookup : backend -> kind -> parameters -> S -> cache_result * S;
  backend_store : backend -> kind -> parameters -> string -> S -> option string * S
}.
Arguments backend_lookup {S}.
Arguments backend_store {S}.

(** Modelled from the spec: the Router's configuration: the allow-list of
    agent-task categories, whether Remote is available, and whether Local
    is the last-resort fallback (section 4.6). *)
Record routing : Type := {
  agent_categories : list string;
  remote_available : bool;
  local_fallback : bool
}.

(** Modelled from the spec: the routing table of section 4.6. *)
Definition route (r : routing) (k : kind) : list backend :=
  match k with
  | ReadFile | ListDir | Search | ShellCommand => [Local]
  | RemoteFetch | RemoteSearch =>
      [Remote; Similarity]
      ++ (if local_fallback r && negb (remote_available r) then [Local] else [])
  | AgentTask category =>
      if Py.contains category (agent_categories r) then [Similarity; Local] else []
  | OtherKind _ => []
  end.

(** Modelled from the spec: the Router tries backends in order and
    returns on the first hit (section 4.6). *)
Fixpoint try_lookup {S : Type} (b : backends S) (order : list backend)
    (k : kind) (p : parameters) (s : S) : cache_result * S :=
  match order with
  | [] => (Miss, s)
  | x :: rest =>
      match backend_lookup b x k p s with
      | (Hit v a, s') => (Hit v a, s')
      | (Miss, s') => try_lookup b rest k p s'
      end
  end.

(** Modelled from the spec: the Router writes to every backend of the
    route and returns the first key obtained (section 4.6). *)
Fixpoint store_all {S : Type} (b : backends S) (order : list backend)
    (k : kind) (p : parameters) (payload : string) (s : S) : option string * S :=
  match order with
  | [] => (None, s)
  | x :: rest =>
      let '(key1, s1) := backend_store b x k p payload s in
      let '(key2, s2) := store_all b rest k p payload s1 in
      (match key1 with Some _ => key1 | None => key2 end, s2)
  end.

(** Modelled from the spec: [lookup] of the Manager, delegated to the
    Router (section 4.6). *)
Definition router_lookup {S : Type} (r : routing) (b : backends S)
    (k : kind) (p : parameters) (s : S) : cache_result * S :=
  try_lookup b (route r k) k p s.

(** Modelled from the spec: [store] of the Manager, delegated to the
    Router (section 4.6). *)
Definition router_store {S : Type} (r : routing) (b : backends S)
    (k : kind) (p : parameters) (payload : string) (s : S) : option string * S :=
  store_all b (route r k) k p payload s.

(** Modelled from the spec: the kinds the routing table lists (section
    4.6): the four local kinds, the two remote kinds, and the allow-listed
    agent tasks. *)
Definition listed (r : routing) (k : kind) : Prop :=
  match k with
  | ReadFile | ListDir | Search | ShellCommand | RemoteFetch | RemoteSearch => True
  | AgentTask category => category ∈ agent_categories r
  | OtherKind _ => False
  end.

End Cache.

(** ** Sample inputs *)
Module Samples.
Import Py.

Definition quote : string := String (ascii_of_nat 34) EmptyString.

(** The text of a [package.json] that pins [pm]. *)
Definition package_json (pm : string) : string :=
  "{" +:+ quote +:+ "packageManager" +:+ quote +:+ ": "
  +:+ quote +:+ pm +:+ quote +:+ "}".

Definition locale_json : string :=
  "{" +:+ quote +:+ "title" +:+ quote +:+ ": " +:+ quote +:+ "Coin ID - Identifier"
  +:+ quote +:+ ", " +:+ quote +:+ "keywords" +:+ quote +:+ ": " +:+ quote
  +:+ "coin" +:+ quote +:+ "}".

(** A stand-in for the library that reads the sample texts above (and
    the empty object and array) and rejects everything else. *)
Definition sample_load (s : string) : json + string :=
  if String.eqb s (package_json "yarn@4.12.0")
  then inl (JObj [("packageManager", JStr "yarn@4.12.0")])
  else if String.eqb s (package_json "npm@10.2.0")
  then inl (JObj [("packageManager", JStr "npm@10.2.0")])
  else if String.eqb s locale_json
  then inl (JObj [("title", JStr "Coin ID - Identifier"); ("keywords", JStr "coin")])
  else if String.eqb s "{}" then inl (JObj [])
  else if String.eqb s "[]" then inl (JArr [])
  else inr "Expecting value: line 1 column 1 (char 0)".

Definition sample_dumps (v : json) : string :=
  match v with
  | JObj [] => "{}"
  | JArr [] => "[]"
  | _ => "<document>"
  end.

Definition sample_repr (v : json) : string :=
  match v with
  | JNull => "None"
  | JStr s => "'" +:+ s +:+ "'"
  | _ => "<value>"
  end.

Definition sample_library : Library :=
  {| json_load := sample_load; json_dumps := sample_dumps; repr := sample_repr |}.

(** A checkout: a pinned root, an app that pins npm and carries a
    [package-lock.json], and a [node_modules] no walk should enter. *)
Definition checkout : listing :=
  [ ("package.json", File (Text (package_json "yarn@4.12.0")));
    ("node_modules",
       Dir [ ("left-pad",
                Dir [ ("package.json", File (Text "{}")) ]) ]);
    ("apps",
       Dir [ ("numy",
                Dir [ ("package.json", File (Text (package_json "npm@10.2.0")));
                      ("package-lock.json", File (Text "{}")) ]) ]) ].

(** The same checkout with the app fixed. *)
Definition clean_checkout : listing :=
  [ ("package.json", File (Text (package_json "yarn@4.12.0")));
    ("node_modules",
       Dir [ ("left-pad",
                Dir [ ("package.json", File (Text "{}")) ]) ]);
    ("apps",
       Dir [ ("numy",
                Dir [ ("package.json", File (Text (package_json "yarn@4.12.0"))) ]) ]) ].

Definition en_US : string :=
  "/Users/fatih/mobile/numy/mobile/apps/numy/store-metadata/locales/en-US.json".

End Samples.

(** ** Sample inputs for the cache *)
Module CacheSamples.
Import Cache.

(** A clock at 100 s, one key for every request, a witness that reads
    modification time 7, a TTL of 60 s and a budget of 100 bytes; nothing
    is compressed. *)
Definition ctx : context :=
  {| now := 100;
     deriveKey := fun _ _ => Some "k1";
     deriveInvalidationDescriptor := fun _ _ => ModificationTime 7;
     ttl := fun _ => 60%Z;
     size_budget := 100;
     compress := fun s => (s, false);
     decompress := fun s => Some s |}.

Definition read_a : parameters := [("path", "/a.txt")].

Definition hello_at (t : Z) (witness : descriptor) : entry :=
  {| key := "k1"; operationKind := ReadFile; params := read_a;
     resultPayload := "hello"; storedAt := t;
     invalidationDescriptor := witness; compressed := false |}.

Definition sized (e : entry) (size : nat) (mtime : Z) : slot :=
  {| slot_entry := e; slot_size := size; slot_mtime := mtime |}.

(** Stored ten seconds ago, with the witness still current. *)
Definition fresh_store : gmap string slot :=
  {[ "k1" := sized (hello_at 90 (ModificationTime 7)) 5 90 ]}.

(** Stored seventy seconds ago. *)
Definition expired_store : gmap string slot :=
  {[ "k1" := sized (hello_at 30 (ModificationTime 7)) 5 30 ]}.

(** Stored ten seconds ago, and the file was touched since. *)
Definition stale_store : gmap string slot :=
  {[ "k1" := sized (hello_at 90 (ModificationTime 6)) 5 90 ]}.

(** Three entries of 50, 40 and 30 bytes, written at 1, 2 and 3 s. *)
Definition full_store : gmap string slot :=
  {[ "a" := sized (hello_at 1 (ModificationTime 7)) 50 1;
     "b" := sized (hello_at 2 (ModificationTime 7)) 40 2;
     "c" := sized (hello_at 3 (ModificationTime 7)) 30 3 ]}.

(** Backends that always hit and always store, counting their calls. *)
Definition eager : backends nat :=
  {| backend_lookup := fun _ _ _ calls => (Hit "cached" 0, S calls);
     backend_store := fun _ _ _ _ calls => (Some "k1", S calls) |}.

Definition research_only : routing :=
  {| agent_categories := ["research"];
     remote_available := true;
     local_fallback := true |}.

End CacheSamples.

(** ** Sample machines *)
Module Machines.
Import Py Machine Samples.

(** A machine that gives the same answers whenever it is asked, with
    nothing asked of it yet. *)
Definition scripted (reply : forall o : operation, response o + exn) : world :=
  {| answer := fun _ => reply; history := [] |}.

Definition locale_document : json :=
  JObj [("title", JStr "Coin ID - Identifier"); ("keywords", JStr "coin")].

Definition config_document : json :=
  JObj [("apple",
         JObj [("info",
                JObj [("en-US", JObj [("title", JStr "Coin ID - Identifier")])]);
               ("bundleId", JStr "com.numy")])].

(** What the files of a healthy machine hold. *)
Definition loaded (path : string) : json :=
  if String.eqb path UpdateCoinIdMetadata.store_config_path
  then config_document
  else locale_document.

(** Nothing fails; the locales directory lists one locale and a note. *)
Definition willing (o : operation) : response o + exn :=
  match o with
  | OpenRead _ => inl tt
  | OpenWrite _ => inl tt
  | Close _ => inl tt
  | JsonLoad path => inl (loaded path)
  | JsonDump _ _ => inl tt
  | Write _ _ => inl tt
  | ListDir _ => inl ["en-US.json"; "NOTES.md"]
  | Print _ => inl tt
  end.


(** Every [json.dump] raises, as on a document with a lone surrogate. *)
Definition dump_fails (o : operation) : response o + exn :=
  match o with
  | JsonDump _ _ => inr UnicodeEncodeError
  | o' => willing o'
  end.

(** [store.config.json] is missing. *)
Definition config_missing (o : operation) : response o + exn :=
  match o with
  | OpenRead path =>
      if String.eqb path UpdateCoinIdMetadata.store_config_path
      then inr FileNotFoundError
      else inl tt
  | o' => willing o'
  end.

(** [./.tool-versions] is a directory. *)
Definition directory_in_the_way (o : operation) : response o + exn :=
  match o with
  | OpenWrite path =>
      if String.eqb path "./.tool-versions" then inr IsADirectoryError else inl tt
  | o' => willing o'
  end.

(** A package under a root that has a directory in the place of its
    [.tool-versions]. *)
Definition blocked_checkout : listing :=
  [ (".tool-versions", Dir []);
    ("a", Dir [ ("package.json", File (Text (package_json "yarn@4.12.0"))) ]) ].

End Machines.
(* ===================================================================== *)
(** * Part II: facts *)
(* ===================================================================== *)

(** ** Lists of names, directories and the walk *)
Module PyFacts.
Import Py.

Lemma contains_true (x : string) (xs : list string) :
  contains x xs = true <-> x ∈ xs.
Proof.
  unfold contains. rewrite existsb_exists. split.
  - intros (y & Hy & E). apply String.eqb_eq in E. subst y.
    by apply list_elem_of_In.
  - intros Hx. exists x. split; [by apply list_elem_of_In | apply String.eqb_refl].
Qed.

Lemma contains_false (x : string) (xs : list string) :
  contains x xs = false <-> x ∉ xs.
Proof.
  rewrite <- contains_true. destruct (contains x xs); split; congruence.
Qed.

(** Induction on a tree, with the hypothesis for every entry of a
    directory. *)
Lemma node_nested_ind (P : node -> Prop) :
  (forall c, P (File c)) ->
  (forall es, Forall (fun e => P (snd e)) es -> P (Dir es)) ->
  forall n, P n.
Proof.
  intros HFile HDir. fix IH 1. intros [c | es].
  - apply HFile.
  - apply HDir. induction es as [| [name sub] es' IHes]; constructor.
    + apply IH.
    + apply IHes.
Qed.

Lemma subdir_Some (d : string) (es : listing) (sub : listing) :
  subdir d es = Some sub -> (d, Dir sub) ∈ es.
Proof.
  induction es as [| [n [c | sub']] es' IH]; simpl; [done | |].
  - intros H. right. auto.
  - destruct (String.eqb_spec n d) as [-> | Hne].
    + intros [= ->]. left.
    + intros H. right. auto.
Qed.

Lemma subdir_dirnames (d : string) (es : listing) :
  d ∈ dirnames es <-> is_Some (subdir d es).
Proof.
  unfold dirnames. induction es as [| [n [c | sub]] es' IH]; simpl.
  - split; [intros H; inversion H | intros [? [=]]].
  - exact IH.
  - rewrite elem_of_cons, IH. destruct (String.eqb_spec n d) as [-> | Hne].
    + split; [eauto | auto].
    + split; [intros [-> | H]; [done | exact H] | auto].
Qed.

Lemma open_here_filenames (name : string) (es : listing) :
  contains name (filenames es) = true <-> is_Some (open_here name es).
Proof.
  rewrite contains_true. unfold filenames.
  induction es as [| [n [c | sub]] es' IH]; simpl.
  - split; [intros H; inversion H | intros [? [=]]].
  - rewrite elem_of_cons, IH. destruct (String.eqb_spec n name) as [-> | Hne].
    + split; [eauto | auto].
    + split; [intros [-> | H]; [done | exact H] | auto].
  - exact IH.
Qed.

Lemma fold_left_pointwise {A B : Type} (f g : A -> B -> A) (l : list B) (a : A) :
  (forall x y, f x y = g x y) -> fold_left f l a = fold_left g l a.
Proof.
  intros E. revert a. induction l as [| y l IH]; intros a; simpl; [done |].
  by rewrite E, IH.
Qed.

(** One step of the walk: the body runs on the directory, then each name
    it left in [dirs] is entered if it is a sub-directory. *)
Lemma os_walk_Dir {S : Type} (body : loop_body S) (root : string)
    (es : listing) (s : S) :
  os_walk body root (Dir es) s =
  fold_left
    (fun acc d =>
       match subdir d es with
       | Some sub => os_walk body (path_join root d) (Dir sub) acc
       | None => acc
       end)
    (fst (body root (dirnames es) (filenames es) es s))
    (snd (body root (dirnames es) (filenames es) es s)).
Proof.
  cbn [os_walk]. destruct (body root (dirnames es) (filenames es) es s) as [dirs s1].
  cbn [fst snd]. apply fold_left_pointwise. intros acc d.
  induction es as [| [n [c | sub]] es' IH]; [done | |].
  - cbn [subdir is_dir]. rewrite andb_false_r. exact IH.
  - cbn [subdir is_dir]. rewrite andb_true_r.
    destruct (String.eqb n d); [done | exact IH].
Qed.

Lemma fold_left_flat_map {A B C : Type} (f : A -> B -> A) (g : C -> list B)
    (l : list C) (a : A) :
  fold_left f (flat_map g l) a = fold_left (fun x c => fold_left f (g c) x) l a.
Proof.
  revert a. induction l as [| c l IH]; intros a; simpl; [done |].
  by rewrite fold_left_app, IH.
Qed.

Lemma fold_left_appends {A B : Type} (f : list A -> B -> list A)
    (g : B -> list A) (l : list B) (a : list A) :
  (forall x y, f x y = x ++ g y) -> fold_left f l a = a ++ flat_map g l.
Proof.
  intros E. revert a. induction l as [| y l IH]; intros a; simpl.
  - by rewrite app_nil_r.
  - by rewrite IH, E, <- app_assoc.
Qed.

Lemma Forall_subdir (P : string * node -> Prop) (es : listing) (d : string)
    (sub : listing) :
  Forall P es -> subdir d es = Some sub -> P (d, Dir sub).
Proof.
  intros HF Hd. apply subdir_Some in Hd.
  rewrite Forall_forall in HF. exact (HF _ Hd).
Qed.

Lemma record_visit_acc (prune : list string -> list string) (n : node) :
  forall root acc,
    os_walk (record_visit prune) root n acc = acc ++ visits prune root n.
Proof.
  unfold visits. induction n as [c | es IH] using node_nested_ind; intros root acc.
  - simpl. by rewrite app_nil_r.
  - rewrite !os_walk_Dir. cbn [record_visit fst snd].
    set (g := fun d => match subdir d es with
                       | Some sub => os_walk (record_visit prune) (path_join root d) (Dir sub) []
                       | None => []
                       end).
    assert (E : forall (x : list (string * listing)) d,
               match subdir d es with
               | Some sub => os_walk (record_visit prune) (path_join root d) (Dir sub) x
               | None => x
               end = x ++ g d).
    { intros x d. unfold g. destruct (subdir d es) as [sub |] eqn:Hd.
      - exact (Forall_subdir _ _ _ _ IH Hd _ _).
      - by rewrite app_nil_r. }
    rewrite !(fold_left_appends _ g _ _ E). by rewrite app_nil_l, app_assoc.
Qed.

Lemma visits_File (prune : list string -> list string) (root : string) (c : content) :
  visits prune root (File c) = [].
Proof. reflexivity. Qed.

(** The walk yields the directory itself, then what lies below each name
    left in [dirs]. *)
Lemma visits_Dir (prune : list string -> list string) (root : string) (es : listing) :
  visits prune root (Dir es)
  = (root, es) :: flat_map (below prune root es) (prune (dirnames es)).
Proof.
  unfold visits at 1. rewrite os_walk_Dir. cbn [record_visit fst snd].
  rewrite (fold_left_appends _ (below prune root es)); [done |].
  intros x d. unfold below. destruct (subdir d es); [apply record_visit_acc |].
  by rewrite app_nil_r.
Qed.

(** A body that edits [dirs] by [prune] and otherwise runs [act] on the
    directory: the walk is [act] folded over the directories visited. *)
Lemma os_walk_visits {S : Type} (body : loop_body S)
    (prune : list string -> list string)
    (act : string -> list string -> listing -> S -> S) :
  (forall root dirs files es s,
      body root dirs files es s = (prune dirs, act root files es s)) ->
  forall n root s,
    os_walk body root n s
    = fold_left (fun acc v => act (fst v) (filenames (snd v)) (snd v) acc)
        (visits prune root n) s.
Proof.
  intros Hbody. induction n as [c | es IH] using node_nested_ind; intros root s.
  - reflexivity.
  - rewrite os_walk_Dir, Hbody, visits_Dir. cbn [fst snd fold_left].
    rewrite fold_left_flat_map. apply fold_left_pointwise. intros acc d.
    unfold below. destruct (subdir d es) as [sub |] eqn:Hd; [| done].
    exact (Forall_subdir _ _ _ _ IH Hd _ _).
Qed.

Lemma everywhere_here (P : listing -> Prop) (es : listing) :
  everywhere P (Dir es) -> P es.
Proof. simpl. tauto. Qed.

Lemma everywhere_entry (P : listing -> Prop) (es : listing) (name : string) (sub : node) :
  everywhere P (Dir es) -> (name, sub) ∈ es -> everywhere P sub.
Proof.
  intros [_ H] Hin. induction es as [| [n0 s0] es' IH]; [inversion Hin |].
  destruct H as [H0 H']. apply elem_of_cons in Hin as [[= -> ->] | Hin]; auto.
Qed.

Lemma everywhere_always (P : listing -> Prop) (n : node) :
  (forall es, P es) -> everywhere P n.
Proof.
  intros HP. induction n as [c | es IH] using node_nested_ind; [done |].
  split; [apply HP |]. induction IH as [| [n0 s0] es' H0 _ IH']; [done | by split].
Qed.

Lemma visits_sound (prune : list string -> list string) (skip : list string) (n : node) :
  forall root r es',
    everywhere (prunes prune skip) n ->
    (r, es') ∈ visits prune root n ->
    exists top, n = Dir top /\ walked skip root top r es'.
Proof.
  induction n as [c | es IH] using node_nested_ind; intros root r es' Hev Hin.
  - rewrite visits_File in Hin. inversion Hin.
  - exists es. split; [done |]. rewrite visits_Dir in Hin.
    apply elem_of_cons in Hin as [[= -> ->] | Hin]; [constructor |].
    apply list_elem_of_In, in_flat_map in Hin as (d & Hd & Hin).
    apply list_elem_of_In in Hd, Hin. unfold below in Hin.
    destruct (subdir d es) as [sub |] eqn:Hsub; [| inversion Hin].
    destruct (proj1 (everywhere_here _ _ Hev d) Hd) as [_ Hskip].
    pose proof (everywhere_entry _ _ _ _ Hev (subdir_Some _ _ _ Hsub)) as Hev'.
    destruct (Forall_subdir _ _ _ _ IH Hsub _ _ _ Hev' Hin) as (top & [= <-] & Hw).
    by eapply walked_sub.
Qed.

Lemma visits_complete (prune : list string -> list string) (skip : list string)
    (root : string) (top : listing) (r : string) (es' : listing) :
  walked skip root top r es' ->
  everywhere (prunes prune skip) (Dir top) ->
  (r, es') ∈ visits prune root (Dir top).
Proof.
  induction 1 as [root es | root es d sub r es' Hsub Hskip _ IH]; intros Hev.
  - rewrite visits_Dir. left.
  - rewrite visits_Dir. right. apply list_elem_of_In, in_flat_map. exists d. split.
    + apply list_elem_of_In, (everywhere_here _ _ Hev d). split; [| done].
      apply subdir_dirnames. by exists sub.
    + apply list_elem_of_In. unfold below. rewrite Hsub. apply IH.
      exact (everywhere_entry _ _ _ _ Hev (subdir_Some _ _ _ Hsub)).
Qed.

(** The directories the walk yields are the ones reached without
    entering a skipped name. *)
Lemma visits_walked (prune : list string -> list string) (skip : list string)
    (root : string) (top : listing) (r : string) (es' : listing) :
  everywhere (prunes prune skip) (Dir top) ->
  (r, es') ∈ visits prune root (Dir top) <-> walked skip root top r es'.
Proof.
  intros Hev. split.
  - intros Hin. destruct (visits_sound _ _ _ _ _ _ Hev Hin) as (top' & [= <-] & Hw).
    exact Hw.
  - intros Hw. by apply (visits_complete prune skip).
Qed.

End PyFacts.

(** ** [validate-pm.py]: when the check fails *)
Module ValidatePmFacts.
Import Py PyFacts ValidatePm.

Lemma prune_keeps_unignored (es : listing) : prunes prune ignored_dirs es.
Proof.
  intros d. unfold prune. rewrite list_elem_of_filter.
  destruct (contains d ignored_dirs); simpl; intuition congruence.
Qed.

Lemma visits_ignored (cwd : listing) (root : string) (es : listing) :
  (root, es) ∈ visits prune "." (Dir cwd) <-> walked ignored_dirs "." cwd root es.
Proof. apply visits_walked, everywhere_always, prune_keeps_unignored. Qed.

Lemma report_app `{Library} (root : string) (files : list string) (es : listing)
    (errors : list string) :
  report root files es errors = errors ++ report root files es [].
Proof.
  unfold report. destruct (contains "package.json" files); simpl;
    by rewrite <- ?app_assoc.
Qed.

(** The errors of a run: those of each directory visited, in order. *)
Lemma collect_errors_visits `{Library} (cwd : listing) :
  collect_errors cwd
  = flat_map (fun v => report (fst v) (filenames (snd v)) (snd v) [])
      (visits prune "." (Dir cwd)).
Proof.
  unfold collect_errors.
  rewrite (os_walk_visits visit prune report) by reflexivity.
  rewrite (fold_left_appends _
             (fun v => report (fst v) (filenames (snd v)) (snd v) [])); [done |].
  intros x v. apply report_app.
Qed.

Lemma forbidden_nonempty (root name : string) (files : list string) :
  forbidden root name files <> [] <-> contains name files = true.
Proof. unfold forbidden. destruct (contains name files); split; congruence. Qed.

Lemma pm_differs_true (pm : json) :
  pm_differs pm = true <-> pm <> JStr "yarn@4.12.0".
Proof.
  destruct pm; simpl; try (split; [congruence | reflexivity]).
  destruct (String.eqb_spec s "yarn@4.12.0") as [-> | Hne]; simpl.
  - split; congruence.
  - split; [congruence | reflexivity].
Qed.

Lemma check_package_json_nonempty `{Library} (pkg_path : string) (c : content) :
  check_package_json pkg_path c <> [] <-> bad_package_json c.
Proof.
  unfold check_package_json, bad_package_json. destruct c as [e | t]; [done |].
  destruct (json_load t) as [data | e]; [| done].
  destruct data as [| b | n | f | s | xs | d]; simpl; try (split; congruence).
  destruct (dict_lookup "packageManager" d) as [pm |] eqn:Hpm; simpl.
  - destruct (pm_differs pm) eqn:Hd.
    + apply pm_differs_true in Hd. split; congruence.
    + assert (pm = JStr "yarn@4.12.0") as ->.
      { destruct pm; try discriminate Hd. simpl in Hd.
        apply negb_false_iff, String.eqb_eq in Hd. by subst. }
      split; congruence.
  - split; congruence.
Qed.

(** A directory adds an error exactly when it offends. *)
Lemma report_nonempty `{Library} (root : string) (es : listing) :
  report root (filenames es) es [] <> [] <-> offending es.
Proof.
  unfold report, offending. cbn [app].
  destruct (contains "package-lock.json" (filenames es)) eqn:H1.
  { split; [auto |]. intros _. unfold forbidden at 1 3. rewrite H1.
    destruct (contains "package.json" (filenames es)); discriminate. }
  destruct (contains "pnpm-lock.yaml" (filenames es)) eqn:H2.
  { split; [auto |]. intros _. unfold forbidden. rewrite H1, H2.
    destruct (contains "package.json" (filenames es)); discriminate. }
  unfold forbidden. rewrite H1, H2. cbn [app].
  destruct (contains "package.json" (filenames es)) eqn:H3.
  - apply open_here_filenames in H3 as [c Hc]. rewrite Hc. cbn [default].
    rewrite check_package_json_nonempty. split.
    + intros Hbad. right. right. by exists c.
    + intros [? | [? | (c' & Hc' & Hbad)]]; [discriminate.. |].
      by injection Hc' as ->.
  - split; [done |]. intros [? | [? | (c & Hc & _)]]; [discriminate.. |].
    assert (contains "package.json" (filenames es) = true) as Ht
      by (apply open_here_filenames; by exists c).
    congruence.
Qed.

Lemma collect_errors_nonempty `{Library} (cwd : listing) :
  collect_errors cwd <> [] <-> violation cwd.
Proof.
  rewrite collect_errors_visits. unfold violation. split.
  - intros Hne.
    destruct (flat_map _ _) as [| e l] eqn:Hfm; [done |].
    assert (In e (e :: l)) as Hin by (by left). rewrite <- Hfm in Hin.
    apply in_flat_map in Hin as ([root es] & Hv & He).
    exists root, es. split.
    + by apply visits_ignored, list_elem_of_In.
    + apply (report_nonempty root). cbn [fst snd] in He. intros E. by rewrite E in He.
  - intros (root & es & Hw & Hoff) E.
    apply visits_ignored, list_elem_of_In in Hw.
    apply (report_nonempty root) in Hoff.
    destruct (report root (filenames es) es []) as [| e l] eqn:Hr; [done |].
    assert (In e (flat_map (fun v => report (fst v) (filenames (snd v)) (snd v) [])
                    (visits prune "." (Dir cwd)))) as Hin.
    { apply in_flat_map. exists (root, es). split; [done |]. cbn [fst snd].
      rewrite Hr. by left. }
    by rewrite E in Hin.
Qed.

(** C8. The run calls [sys.exit(1)], having printed the collected errors
    joined by newlines, exactly when some directory of the walk (which
    never enters [node_modules], [.git], [.yarn], [build], [dist] or
    [.next]) holds a [package-lock.json], a [pnpm-lock.yaml], or a
    [package.json] that cannot be read or parsed or whose
    [packageManager] is not the string [yarn@4.12.0] (a missing field
    included); every error of every such directory is among the ones
    printed; otherwise the run prints the success message and ends
    without calling [sys.exit]. *)
Theorem check_package_managers_exit `{Library} (cwd : listing) :
  (exit_status (check_package_managers cwd) = Some 1%Z <-> violation cwd)
  /\ (exit_status (check_package_managers cwd) = None <-> ~ violation cwd)
  /\ (violation cwd ->
      printed (check_package_managers cwd)
      = [String.concat newline (collect_errors cwd)])
  /\ (forall root es e,
        walked ignored_dirs "." cwd root es ->
        e ∈ report root (filenames es) es [] ->
        e ∈ collect_errors cwd)
  /\ (~ violation cwd ->
      check_package_managers cwd
      = {| printed := [success_message]; exit_status := None |}).
Proof.
  pose proof (collect_errors_nonempty cwd) as Hne.
  unfold check_package_managers.
  destruct (collect_errors cwd) as [| e l] eqn:Hc.
  - assert (~ violation cwd) as Hnv by (intros Hv; by apply Hne in Hv).
    repeat split; cbn [exit_status printed]; try done.
    intros root es e Hw He. rewrite collect_errors_visits in Hc.
    apply visits_ignored, list_elem_of_In in Hw. apply list_elem_of_In in He.
    assert (In e (flat_map (fun v => report (fst v) (filenames (snd v)) (snd v) [])
                    (visits prune "." (Dir cwd)))) as Hin
      by (apply in_flat_map; by exists (root, es)).
    rewrite Hc in Hin. destruct Hin.
  - assert (violation cwd) as Hv by (by apply Hne).
    repeat split; cbn [exit_status printed]; try done.
    intros root es e' Hw He. rewrite <- Hc, collect_errors_visits.
    apply visits_ignored, list_elem_of_In in Hw.
    apply list_elem_of_In, in_flat_map. exists (root, es).
    split; [done | by apply list_elem_of_In].
Qed.

End ValidatePmFacts.

(** ** Runs on the machine *)
Module MachineFacts.
Import Py Machine.

Lemma extend_nil (w : world) : extend w [] = w.
Proof. destruct w as [a h]. unfold extend. cbn. by rewrite app_nil_r. Qed.

Lemma extend_extend (w : world) (t t' : list event) :
  extend (extend w t) t' = extend w (t ++ t').
Proof. unfold extend. cbn. by rewrite app_assoc. Qed.

Lemma next_extend (w : world) (t : list event) (k : nat) (o : operation) :
  next (extend w t) k o = next w (length t + k) o.
Proof.
  unfold next, extend. cbn. by rewrite length_app, Nat.add_assoc.
Qed.

Lemma history_extend (w : world) (t : list event) :
  history (extend w t) = history w ++ t.
Proof. reflexivity. Qed.

Lemma returns_or_raises {A : Type} (r : (A + exn) * world) :
  returns r \/ exists e, raises r e.
Proof. destruct r as [[a | e] w]; [left; by exists a | right; by exists e]. Qed.

Lemma raises_not_returns {A : Type} (r : (A + exn) * world) (e : exn) :
  raises r e -> ~ returns r.
Proof. unfold raises. intros He [a Ha]. congruence. Qed.

Lemma bind_assoc {A B C : Type} (c : run A) (k : A -> run B) (k' : B -> run C)
    (w : world) :
  bind (bind c k) k' w = bind c (fun a => bind (k a) k') w.
Proof. unfold bind. by destruct (c w) as [[a | e] w']. Qed.

Lemma bind_ret_r (c : run unit) (w : world) : bind c (fun _ => ret tt) w = c w.
Proof. unfold bind, ret. by destruct (c w) as [[[] | e] w']. Qed.

Lemma bind_pointwise {A B : Type} (c : run A) (k k' : A -> run B) (w : world) :
  (forall a w', k a w' = k' a w') -> bind c k w = bind c k' w.
Proof. intros E. unfold bind. destruct (c w) as [[a | e] w']; [apply E | done]. Qed.

(** A loop that adds one call per element to the run so far is the run
    so far followed by the calls in order. *)
Lemma fold_left_calls {A : Type} (f : A -> run unit) (xs : list A) :
  forall (so_far : run unit) (w : world),
    fold_left (fun acc x => bind acc (fun _ => f x)) xs so_far w
    = bind so_far (fun _ => for_each xs f) w.
Proof.
  induction xs as [| x xs IH]; intros so_far w; cbn [fold_left for_each].
  - by rewrite bind_ret_r.
  - rewrite IH. apply bind_assoc.
Qed.

Lemma keeps_to_ret {A : Type} (a : A) : keeps_to [] (ret a).
Proof.
  intros w. exists []. cbn. rewrite extend_nil. split; [done |].
  split; [done |]. split; [done |]. intros e. discriminate.
Qed.

Lemma keeps_to_bind {A B : Type} (p1 p2 : list operation) (c : run A)
    (k : A -> run B) :
  keeps_to p1 c -> (forall a, keeps_to p2 (k a)) -> keeps_to (p1 ++ p2) (bind c k).
Proof.
  intros H1 H2 w. destruct (H1 w) as (t1 & Hw1 & Hp1 & Hret1 & Hraise1).
  unfold bind. destruct (c w) as [[a | e] w1] eqn:Hc; cbn [snd] in Hw1; subst w1.
  - destruct (Hret1 (ex_intro _ a eq_refl)) as [Hplan1 Hok1].
    destruct (H2 a (extend w t1)) as (t2 & Hw2 & Hp2 & Hret2 & Hraise2).
    exists (t1 ++ t2). rewrite Hw2, extend_extend, map_app, Hplan1.
    split; [done |]. split; [by apply prefix_app |]. split.
    + intros Hr. destruct (Hret2 Hr) as [Hplan2 Hok2].
      split; [by rewrite Hplan2 | by apply Forall_app].
    + intros e He. apply Exists_app. right. by apply (Hraise2 e).
  - exists t1. split; [done |]. split; [by apply prefix_app_r |]. split.
    + intros [b Hb]. discriminate.
    + intros e' He'. by apply (Hraise1 e).
Qed.

Lemma keeps_to_for_each {A : Type} (plan : A -> list operation)
    (f : A -> run unit) (xs : list A) :
  (forall x, keeps_to (plan x) (f x)) ->
  keeps_to (flat_map plan xs) (for_each xs f).
Proof.
  intros Hf. induction xs as [| x xs IH]; cbn [flat_map for_each].
  - apply keeps_to_ret.
  - apply keeps_to_bind; [apply Hf | intros _; apply IH].
Qed.

(** Statements that agree in every world keep to the same plans. *)
Lemma keeps_to_pointwise {A : Type} (plan : list operation) (c c' : run A) :
  (forall w, c w = c' w) -> keeps_to plan c' -> keeps_to plan c.
Proof. intros E H w. rewrite E. apply H. Qed.

(** A [with] block around one operation: the three operations it asks,
    and which exception leaves it. *)
Lemma with_open_perform (mode : string -> operation) (path : string)
    (o : operation) (w : world) :
  with_open mode path (perform o) w =
  match next w 0 (mode path) with
  | inr e => (inr e, extend w [ko (mode path) e])
  | inl _ =>
      match next w 2 (Close path) with
      | inr e =>
          (inr e, extend w [ok (mode path); event_of o (next w 1 o); ko (Close path) e])
      | inl _ =>
          (next w 1 o,
           extend w [ok (mode path); event_of o (next w 1 o); ok (Close path)])
      end
  end.
Proof.
  unfold with_open, perform.
  destruct (next w 0 (mode path)) as [u | e] eqn:E0; cbn [event_of]; [| done].
  rewrite !next_extend, !extend_extend. cbn [length app Nat.add].
  by destruct (next w 2 (Close path)) as [u' | e].
Qed.

Lemma keeps_to_perform (o : operation) : keeps_to [o] (perform o).
Proof.
  intros w. exists [event_of o (next w 0 o)]. unfold perform. cbn [snd fst map asked event_of].
  split; [done |]. split; [done |]. unfold returns, raises. cbn [fst].
  destruct (next w 0 o) as [v | e]; (split; [intros [a Ha] | intros e' He']).
  - split; [done |]. by repeat constructor.
  - discriminate.
  - discriminate.
  - apply Exists_cons. left. unfold failed. cbn. discriminate.
Qed.

Lemma keeps_to_with_open (mode : string -> operation) (path : string)
    (o : operation) :
  keeps_to [mode path; o; Close path] (with_open mode path (perform o)).
Proof.
  intros w. rewrite with_open_perform. unfold returns, raises.
  destruct (next w 0 (mode path)) as [u | e].
  - destruct (next w 2 (Close path)) as [u' | e].
    + eexists. split; [reflexivity |]. cbn [map asked ok event_of fst].
      split; [done |]. destruct (next w 1 o) as [v | e]; split.
      * intros _. split; [done |]. by repeat constructor.
      * intros e He. discriminate.
      * intros [a Ha]. discriminate.
      * intros e' _. apply Exists_cons. right. apply Exists_cons. left.
        unfold failed. cbn. discriminate.
    + eexists. split; [reflexivity |]. cbn [map asked ok ko event_of fst].
      split; [done |]. split; [intros [a Ha]; discriminate |].
      intros e' _. do 2 (apply Exists_cons; right). apply Exists_cons. left.
      unfold failed. cbn. discriminate.
  - eexists. split; [reflexivity |]. cbn [map asked ko fst].
    split; [by exists [o; Close path] |]. split; [intros [a Ha]; discriminate |].
    intros e' _. apply Exists_cons. left. unfold failed. cbn. discriminate.
Qed.

Lemma confined_ret {A : Type} (P : operation -> Prop) (a : A) : confined P (ret a).
Proof. intros w. exists []. cbn. by rewrite extend_nil. Qed.

Lemma confined_raise {A : Type} (P : operation -> Prop) (e : exn) :
  confined P (@raise A e).
Proof. intros w. exists []. cbn. by rewrite extend_nil. Qed.

(** A statement that asks nothing of the machine. *)
Lemma confined_quiet {A : Type} (P : operation -> Prop) (c : run A) :
  (forall w, snd (c w) = w) -> confined P c.
Proof. intros Hq w. exists []. by rewrite Hq, extend_nil. Qed.

Lemma confined_weaken {A : Type} (P Q : operation -> Prop) (c : run A) :
  (forall o, P o -> Q o) -> confined P c -> confined Q c.
Proof.
  intros HPQ Hc w. destruct (Hc w) as (t & Hw & HP & Hret).
  exists t. split; [done |]. split; [| done].
  eapply Forall_impl; [exact HP |]. intros ev. apply HPQ.
Qed.

Lemma confined_pointwise {A : Type} (P : operation -> Prop) (c c' : run A) :
  (forall w, c w = c' w) -> confined P c' -> confined P c.
Proof. intros E H w. rewrite E. apply H. Qed.

Lemma confined_perform (P : operation -> Prop) (o : operation) :
  P o -> confined P (perform o).
Proof.
  intros HP w. exists [event_of o (next w 0 o)]. unfold perform. cbn [snd fst].
  split; [done |]. split; [by repeat constructor |].
  unfold returns. cbn [fst]. destruct (next w 0 o) as [v | e].
  - intros _. by repeat constructor.
  - intros [a Ha]. discriminate.
Qed.

Lemma confined_bind {A B : Type} (P : operation -> Prop) (c : run A)
    (k : A -> run B) :
  confined P c -> (forall a, confined P (k a)) -> confined P (bind c k).
Proof.
  intros H1 H2 w. destruct (H1 w) as (t1 & Hw1 & HP1 & Hret1).
  unfold bind. destruct (c w) as [[a | e] w1] eqn:Hc; cbn [snd] in Hw1; subst w1.
  - destruct (H2 a (extend w t1)) as (t2 & Hw2 & HP2 & Hret2).
    exists (t1 ++ t2). rewrite Hw2, extend_extend. split; [done |].
    split; [by apply Forall_app |]. intros Hr. apply Forall_app. split; [| by apply Hret2].
    apply Hret1. by exists a.
  - exists t1. split; [done |]. split; [done |]. intros [b Hb]. discriminate.
Qed.

Lemma confined_with_open {A : Type} (P : operation -> Prop)
    (mode : string -> operation) (path : string) (body : run A) :
  P (mode path) -> P (Close path) -> confined P body ->
  confined P (with_open mode path body).
Proof.
  intros Hopen Hclose Hbody w. unfold with_open, perform.
  destruct (next w 0 (mode path)) as [u | e] eqn:E0.
  - destruct (Hbody (extend w [event_of (mode path) (inl u)])) as (t & Hw & HP & Hret).
    destruct (body _) as [r w2]. cbn [snd] in Hw. subst w2.
    unfold returns in *. cbn [fst] in *.
    destruct (next _ 0 (Close path)) as [u' | e] eqn:E2;
      rewrite !extend_extend;
      (eexists; split; [reflexivity |]; split;
       [ apply Forall_cons; split; [done |]; apply Forall_app; split; [done |];
         by repeat constructor |]).
    + intros Hr. apply Forall_cons. split; [done |]. apply Forall_app.
      split; [by apply Hret | by repeat constructor].
    + intros [a Ha]. discriminate.
  - exists [event_of (mode path) (inr e)]. split; [done |].
    split; [by repeat constructor |]. intros [a Ha]. discriminate.
Qed.

Lemma confined_for_each {A : Type} (P : operation -> Prop) (f : A -> run unit)
    (xs : list A) :
  (forall x, x ∈ xs -> confined P (f x)) -> confined P (for_each xs f).
Proof.
  induction xs as [| x xs IH]; intros Hf; cbn [for_each].
  - apply confined_ret.
  - apply confined_bind; [apply Hf; left |].
    intros _. apply IH. intros y Hy. apply Hf. by right.
Qed.

End MachineFacts.

(** ** [deploy_tool_versions.py]: where the file is written *)
Module DeployToolVersionsFacts.
Import Py PyFacts Machine MachineFacts DeployToolVersions.

Lemma list_remove_elem (x d : string) (xs : list string) :
  NoDup xs -> d ∈ list_remove x xs <-> d ∈ xs /\ d <> x.
Proof.
  induction 1 as [| y ys Hy Hys IH]; simpl.
  - split; [intros H; inversion H | intros [H _]; inversion H].
  - destruct (String.eqb_spec x y) as [<- | Hne].
    + rewrite elem_of_cons. split.
      * intros Hd. split; [by right | intros ->; done].
      * intros [[-> | Hd] Hdx]; done.
    + rewrite !elem_of_cons, IH. split.
      * intros [-> | [Hd Hdx]]; [split; [by left | congruence] | split; [by right | done]].
      * intros [[-> | Hd] Hdx]; [by left | by right].
Qed.

Lemma list_remove_NoDup (x : string) (xs : list string) :
  NoDup xs -> NoDup (list_remove x xs).
Proof.
  induction 1 as [| y ys Hy Hys IH]; simpl; [constructor |].
  destruct (String.eqb x y); [done |]. constructor; [| done].
  intros Hin. apply list_remove_elem in Hin as [Hin _]; done.
Qed.

Lemma drop_elem (x d : string) (xs : list string) :
  NoDup xs -> d ∈ drop x xs <-> d ∈ xs /\ d <> x.
Proof.
  intros Hnd. unfold drop. destruct (contains x xs) eqn:Hc.
  - by apply list_remove_elem.
  - apply contains_false in Hc. split; [| tauto].
    intros Hd. split; [done | intros ->; done].
Qed.

Lemma drop_NoDup (x : string) (xs : list string) : NoDup xs -> NoDup (drop x xs).
Proof.
  intros Hnd. unfold drop. destruct (contains x xs); [| done].
  by apply list_remove_NoDup.
Qed.

Lemma skipped_false (d : string) :
  contains d skipped = false <-> d <> "node_modules" /\ d <> ".git" /\ d <> ".expo".
Proof.
  rewrite contains_false. unfold skipped.
  rewrite !elem_of_cons, elem_of_nil. tauto.
Qed.

Lemma prune_keeps_unskipped (es : listing) :
  NoDup (dirnames es) -> prunes prune skipped es.
Proof.
  intros Hnd d. unfold prune.
  rewrite drop_elem by auto using drop_NoDup.
  rewrite drop_elem by auto using drop_NoDup.
  rewrite drop_elem by done. rewrite skipped_false. tauto.
Qed.

Lemma dirnames_NoDup (es : listing) : NoDup (map fst es) -> NoDup (dirnames es).
Proof.
  unfold dirnames. intros Hnd. eapply sublist_NoDup; [exact Hnd |].
  apply (fmap_sublist fst), sublist_filter.
Qed.

Lemma unique_names_prunes (n : node) :
  unique_names n = true -> everywhere (prunes prune skipped) n.
Proof.
  induction n as [c | es IH] using node_nested_ind; [done |].
  cbn [unique_names everywhere]. intros [Hnd Hall]%andb_true_iff. split.
  - apply prune_keeps_unskipped, dirnames_NoDup. by apply bool_decide_eq_true in Hnd.
  - clear Hnd. induction IH as [| [n0 s0] es' H0 _ IH']; [done |].
    apply andb_true_iff in Hall as [Hs0 Hall]. split; [by apply H0 | by apply IH'].
Qed.

Lemma targets_walked (cwd : listing) (r : string) :
  unique_names (Dir cwd) = true ->
  r ∈ targets cwd
  <-> r = "."
      \/ exists es, walked skipped "." cwd r es
                    /\ contains "package.json" (filenames es) = true.
Proof.
  intros Hu. apply unique_names_prunes in Hu. unfold targets.
  rewrite elem_of_cons. apply or_iff_compat_l.
  rewrite list_elem_of_In, in_map_iff. split.
  - intros ([r' es] & <- & Hin). apply list_elem_of_In, list_elem_of_filter in Hin.
    destruct Hin as [Hp Hin]. exists es. split.
    + by apply (visits_walked prune skipped).
    + by apply Is_true_true in Hp.
  - intros (es & Hw & Hp). exists (r, es). split; [done |].
    apply list_elem_of_In, list_elem_of_filter. split.
    + by apply Is_true_true.
    + by apply (visits_walked prune skipped).
Qed.

(** One call asks for the open, the write, the close and the print, in
    this order, returns only when all four went through, and raises as
    soon as one did not (the close of the [with] block apart). *)
Lemma create_tool_versions_keeps_to (path : string) :
  keeps_to (steps path) (create_tool_versions path).
Proof.
  unfold create_tool_versions, steps, tool_versions_path, created_line. cbv zeta.
  apply (keeps_to_bind [_; _; _] [_]); [apply keeps_to_with_open |].
  intros _. apply keeps_to_perform.
Qed.

(** The script is the calls on [targets], in order. *)
Lemma main_calls (cwd : listing) (w : world) :
  main cwd w = for_each (targets cwd) create_tool_versions w.
Proof.
  unfold main, targets. cbn [for_each].
  rewrite (os_walk_visits visit prune
             (fun root files _ so_far =>
                if contains "package.json" files
                then bind so_far (fun _ => create_tool_versions root)
                else so_far)) by reflexivity.
  generalize (create_tool_versions ".") as so_far. revert w.
  induction (visits prune "." (Dir cwd)) as [| v vs IH]; intros w so_far.
  - cbn [fold_left filter map for_each]. by rewrite bind_ret_r.
  - cbn [fold_left]. rewrite IH. rewrite filter_cons.
    destruct (decide (has_package_json v)) as [Hd | Hd];
      unfold has_package_json in Hd;
      destruct (contains "package.json" (filenames (snd v))); simpl in Hd; try tauto.
    cbn [map for_each]. apply bind_assoc.
Qed.

(** The script asks for the operations of its calls, in order. *)
Lemma main_keeps_to (cwd : listing) :
  keeps_to (flat_map steps (targets cwd)) (main cwd).
Proof.
  apply (keeps_to_pointwise _ _ (for_each (targets cwd) create_tool_versions)).
  - apply main_calls.
  - apply keeps_to_for_each, create_tool_versions_keeps_to.
Qed.

(** With a [package.json] in the current directory, the walk starts with
    a second call on it. *)
Lemma targets_root (cwd : listing) :
  contains "package.json" (filenames cwd) = true ->
  exists rest, targets cwd = "." :: "." :: rest.
Proof.
  intros Hpkg. unfold targets. rewrite visits_Dir, filter_cons.
  destruct (decide (has_package_json (".", cwd))) as [_ | Hn].
  - eexists. cbn [map fst]. reflexivity.
  - exfalso. apply Hn. unfold has_package_json. cbn [snd]. by rewrite Hpkg.
Qed.

(** C9, as the script has it. [create_tool_versions path] opens
    [path/.tool-versions] for writing with no test before it (the open
    creates the file or empties it), writes the fixed four lines, closes
    and prints; an exception of the open reaches the caller with nothing
    written or printed. The script is these calls on [.] and then, in
    walk order, on the directories that hold a [package.json] among those
    reached from [.] without entering a [node_modules], [.git] or
    [.expo]: it asks the machine for their operations in order and for
    nothing else, returns only after all of them went through, and
    raises, leaving the later directories without a file, only after one
    of them failed. *)
Theorem tool_versions_deployed (cwd : listing) (w : world) (path : string) :
  unique_names (Dir cwd) = true ->
  (keeps_to
     [ OpenWrite (path_join path ".tool-versions");
       Write (path_join path ".tool-versions") tool_versions_content;
       Close (path_join path ".tool-versions");
       Print ("Created .tool-versions in " +:+ path) ]
     (create_tool_versions path)
   /\ (forall e,
         next w 0 (OpenWrite (path_join path ".tool-versions")) = inr e ->
         create_tool_versions path w
         = (inr e, extend w [ko (OpenWrite (path_join path ".tool-versions")) e]))
   /\ tool_versions_content
      = "nodejs 25.2.1" +:+ newline +:+ "yarn 4.12.0" +:+ newline
        +:+ "ruby 3.4.7" +:+ newline +:+ "java temurin-17.0.9+9" +:+ newline)
  /\ (main cwd w = for_each (targets cwd) create_tool_versions w
      /\ (forall r,
            r ∈ targets cwd
            <-> r = "."
                \/ exists es, walked skipped "." cwd r es
                              /\ contains "package.json" (filenames es) = true)
      /\ exists t,
           snd (main cwd w) = extend w t
           /\ map asked t `prefix_of` flat_map steps (targets cwd)
           /\ (returns (main cwd w) <->
               map asked t = flat_map steps (targets cwd) /\ Forall succeeded t)
           /\ (forall e, raises (main cwd w) e -> Exists failed t)).
Proof.
  intros Hu. split; [split; [| split] | split; [| split]].
  - apply create_tool_versions_keeps_to.
  - intros e He. unfold create_tool_versions, bind. cbv zeta.
    rewrite with_open_perform, He. done.
  - reflexivity.
  - apply main_calls.
  - intros r. by apply targets_walked.
  - destruct (keeps_to_for_each steps create_tool_versions (targets cwd)
                create_tool_versions_keeps_to w) as (t & Hw & Hp & Hret & Hraise).
    rewrite <- main_calls in Hw, Hret, Hraise.
    exists t. split; [done |]. split; [done |]. split; [| done].
    split; [done |]. intros [_ Hok].
    destruct (returns_or_raises (main cwd w)) as [Hr | [e He]]; [done |].
    apply Hraise in He. apply Exists_exists in He as (ev & Hin & Hf).
    rewrite Forall_forall in Hok. by destruct (Hf (Hok ev Hin)).
Qed.

End DeployToolVersionsFacts.

(** ** [update_coin_id_metadata.py]: what is rewritten, and when it fails *)
Module UpdateCoinIdMetadataFacts.
Import Py Machine MachineFacts UpdateCoinIdMetadata.

Lemma dict_lookup_setitem_eq (k : string) (v : json) (d : dict) :
  dict_lookup k (dict_setitem k v d) = Some v.
Proof.
  induction d as [| [k' v'] d IH]; simpl.
  - by rewrite String.eqb_refl.
  - destruct (String.eqb k' k) eqn:E; simpl; by rewrite E.
Qed.

Lemma dict_lookup_setitem_ne (k k0 : string) (v : json) (d : dict) :
  k0 <> k -> dict_lookup k0 (dict_setitem k v d) = dict_lookup k0 d.
Proof.
  intros Hne. induction d as [| [k' v'] d IH]; simpl.
  - destruct (String.eqb_spec k k0); [congruence | done].
  - destruct (String.eqb_spec k' k) as [-> | Hk]; simpl.
    + destruct (String.eqb_spec k k0); [congruence | done].
    + by rewrite IH.
Qed.

Lemma retitle_title (d : dict) : dict_lookup "title" (retitle d) = Some new_title.
Proof.
  unfold retitle. rewrite dict_lookup_setitem_ne by discriminate.
  apply dict_lookup_setitem_eq.
Qed.

Lemma retitle_subtitle (d : dict) :
  dict_lookup "subtitle" (retitle d) = Some new_subtitle.
Proof. apply dict_lookup_setitem_eq. Qed.

Lemma retitle_other (k : string) (d : dict) :
  k <> "title" -> k <> "subtitle" -> dict_lookup k (retitle d) = dict_lookup k d.
Proof.
  intros H1 H2. unfold retitle. by rewrite !dict_lookup_setitem_ne.
Qed.

Lemma retitle_infos_cases (items : dict) (w : world) :
  (exists items', retitle_infos items w = (inl items', w)
                  /\ Forall2 retitled items items')
  \/ retitle_infos items w = (inr TypeError, w).
Proof.
  induction items as [| [locale info] rest IH].
  - left. exists []. split; [done | constructor].
  - cbn [retitle_infos]. unfold bind.
    destruct info; try (by right).
    cbn [py_setitem ret].
    destruct IH as [(rest' & -> & HF) | ->]; [| by right].
    left. eexists. split; [reflexivity |]. constructor; [| done].
    split; [done |]. by eexists.
Qed.

(** What the statements between the load and the dump do to the loaded
    value: an object is retitled, whatever the locale; anything else has
    no [get]. *)
Lemma rebranded_value (filepath : string) (data : json) (w : world) :
  (old_title <- py_get data "title" (JStr "") ;;
   old_subtitle <- py_get data "subtitle" (JStr "") ;;
   rebrand (is_english filepath) data)%run w
  = match data with
    | JObj d => (inl (JObj (retitle d)), w)
    | _ => (inr AttributeError, w)
    end.
Proof.
  destruct data; try done. unfold bind. cbn [py_get ret].
  unfold rebrand, bind. by destruct (is_english filepath).
Qed.

(** Every path through [update_json_file], the two branches of the
    locale test included. *)
Lemma update_json_file_cases (filepath : string) (w : world) :
  update_json_file filepath w =
  match load_json filepath w with
  | (inr e, w1) => (inr e, w1)
  | (inl (JObj d), w1) => dump_json filepath (JObj (retitle d)) w1
  | (inl _, w1) => (inr AttributeError, w1)
  end.
Proof.
  unfold update_json_file, bind.
  destruct (load_json filepath w) as [[data | e] w1]; [| done].
  destruct data; try done. cbn [py_get ret].
  unfold rebrand, bind. by destruct (is_english filepath).
Qed.

End UpdateCoinIdMetadataFacts.

(** ** The cache of the specification: freshness, eviction, routing *)
Module CacheFacts.
Import Cache.

Lemma descriptor_eqb_eq (a b : descriptor) :
  descriptor_eqb a b = true <-> a = b.
Proof.
  destruct a, b; simpl; try (split; [discriminate | congruence]).
  - rewrite Z.eqb_eq. split; congruence.
  - rewrite String.eqb_eq. split; congruence.
  - rewrite Z.eqb_eq. split; congruence.
Qed.

#[local] Instance older_transitive : Transitive older.
Proof. intros a b c. unfold older. lia. Qed.

#[local] Instance older_total : Total older.
Proof. intros a b. unfold older. lia. Qed.

Lemma usage_empty : usage ∅ = 0.
Proof. unfold usage. by rewrite map_to_list_empty. Qed.

Lemma usage_delete (st : gmap string slot) (k : string) (s : slot) :
  st !! k = Some s -> usage (delete k st) + slot_size s = usage st.
Proof.
  intros Hk. unfold usage. rewrite <- (map_to_list_delete st k s Hk). simpl. lia.
Qed.

Lemma within_target_budget (budget : nat) (st : gmap string slot) :
  budget < usage st -> within_target budget st = false.
Proof. intros Hb. unfold within_target. apply Nat.leb_gt. lia. Qed.

(** The loop keeps in step with the listing: the entries still to be
    considered are the entries still stored. *)
Lemma evict_delete_step (l : list (string * slot)) (st : gmap string slot)
    (k : string) (s : slot) :
  map_to_list st ≡ₚ (k, s) :: l ->
  st !! k = Some s /\ map_to_list (delete k st) ≡ₚ l.
Proof.
  intros Hp.
  assert (st !! k = Some s) as Hk.
  { apply elem_of_map_to_list. rewrite Hp. left. }
  split; [done |].
  apply (Permutation_cons_inv (a := (k, s))).
  by rewrite map_to_list_delete.
Qed.

Lemma evict_subseteq (budget : nat) (l : list (string * slot)) :
  forall st, evict budget l st ⊆ st.
Proof.
  induction l as [| [k s] l IH]; intros st; simpl; [done |].
  destruct (within_target budget st); [done |].
  etransitivity; [apply IH | apply delete_subseteq].
Qed.

Lemma evict_within_target (budget : nat) (l : list (string * slot)) :
  forall st, map_to_list st ≡ₚ l -> within_target budget (evict budget l st) = true.
Proof.
  induction l as [| [k s] l IH]; intros st Hp; simpl.
  - apply Permutation_nil_r, map_to_list_empty_iff in Hp. subst st.
    unfold within_target. rewrite usage_empty. apply Nat.leb_le. lia.
  - destruct (within_target budget st) eqn:Hw; [done |].
    apply IH. by apply (evict_delete_step l st k s).
Qed.

Lemma evict_oldest (budget : nat) (l : list (string * slot)) :
  forall st,
    map_to_list st ≡ₚ l -> StronglySorted older l ->
    forall k s k' s',
      st !! k = Some s ->
      evict budget l st !! k = None ->
      evict budget l st !! k' = Some s' ->
      (slot_mtime s <= slot_mtime s')%Z.
Proof.
  induction l as [| [k0 s0] l IH]; intros st Hp Hs k s k' s' Hk Hgone Hkept; simpl in *.
  - congruence.
  - destruct (within_target budget st); [congruence |].
    destruct (evict_delete_step l st k0 s0 Hp) as [Hk0 Hp'].
    apply StronglySorted_cons in Hs as [Hall Hs].
    destruct (decide (k = k0)) as [-> | Hne].
    + assert (s = s0) as -> by congruence.
      assert (delete k0 st !! k' = Some s') as Hin
        by (eapply lookup_weaken; [exact Hkept | apply evict_subseteq]).
      apply elem_of_map_to_list in Hin. rewrite Hp' in Hin.
      rewrite Forall_forall in Hall. exact (Hall _ Hin).
    + apply (IH (delete k0 st) Hp' Hs k s k' s'); [| done | done].
      by rewrite lookup_delete_ne.
Qed.

Lemma evict_no_more (budget : nat) (l : list (string * slot)) :
  forall st,
    map_to_list st ≡ₚ l ->
    within_target budget st = false ->
    exists k s,
      st !! k = Some s
      /\ evict budget l st !! k = None
      /\ 80 * budget < 100 * (usage (evict budget l st) + slot_size s).
Proof.
  induction l as [| [k0 s0] l IH]; intros st Hp Hw; simpl.
  - apply Permutation_nil_r, map_to_list_empty_iff in Hp. subst st.
    unfold within_target in Hw. rewrite usage_empty in Hw.
    apply Nat.leb_gt in Hw. lia.
  - rewrite Hw. destruct (evict_delete_step l st k0 s0 Hp) as [Hk0 Hp'].
    destruct (within_target budget (delete k0 st)) eqn:Hw'.
    + assert (evict budget l (delete k0 st) = delete k0 st) as ->.
      { destruct l as [| [k1 s1] l']; simpl; [done | by rewrite Hw']. }
      exists k0, s0. split; [done |]. split; [apply lookup_delete_eq |].
      rewrite (usage_delete st k0 s0 Hk0).
      unfold within_target in Hw. apply Nat.leb_gt in Hw. lia.
    + destruct (IH (delete k0 st) Hp' Hw') as (k & s & Hk & Hgone & Hbound).
      exists k, s. split; [| done].
      eapply lookup_weaken; [exact Hk | apply delete_subseteq].
Qed.

(** C4. With the entry of a request in the store, [lookup] returns a hit
    only if the entry is younger than the TTL of its kind and its stored
    descriptor equals the one derived now, and then leaves the store as
    it is; when the entry has reached the TTL or the descriptors differ,
    [lookup] deletes the entry and returns a miss; a fresh entry whose
    payload decodes is returned as a hit. *)
Theorem lookup_only_fresh (c : context) (k : kind) (p : parameters)
    (st : gmap string slot) (key0 : string) (s : slot) :
  deriveKey c k p = Some key0 ->
  st !! key0 = Some s ->
  (forall v a,
      fst (lookup c k p st) = Hit v a ->
      (age c (slot_entry s) < ttl c k)%Z
      /\ invalidationDescriptor (slot_entry s) = deriveInvalidationDescriptor c k p
      /\ snd (lookup c k p st) = st)
  /\ ((ttl c k <= age c (slot_entry s))%Z
      \/ invalidationDescriptor (slot_entry s) <> deriveInvalidationDescriptor c k p ->
      lookup c k p st = (Miss, delete key0 st))
  /\ ((age c (slot_entry s) < ttl c k)%Z ->
      invalidationDescriptor (slot_entry s) = deriveInvalidationDescriptor c k p ->
      forall v,
        (if compressed (slot_entry s)
         then decompress c (resultPayload (slot_entry s))
         else Some (resultPayload (slot_entry s))) = Some v ->
        lookup c k p st = (Hit v (age c (slot_entry s)), st)).
Proof.
  intros Hkey Hs. unfold lookup. rewrite Hkey, Hs. cbv zeta.
  destruct (ttl c k <=? age c (slot_entry s))%Z eqn:Httl.
  - apply Z.leb_le in Httl. split; [discriminate |]. split; [done | lia].
  - apply Z.leb_gt in Httl.
    destruct (descriptor_eqb (invalidationDescriptor (slot_entry s))
                (deriveInvalidationDescriptor c k p)) eqn:Hd; cbn [negb].
    + apply descriptor_eqb_eq in Hd. split; [| split].
      * intros v a Hhit. do 2 (split; [done |]).
        by destruct (if compressed (slot_entry s) then _ else _).
      * intros [Hexp | Hne]; [lia | done].
      * intros _ _ v ->. done.
    + assert (invalidationDescriptor (slot_entry s)
              <> deriveInvalidationDescriptor c k p) as Hne.
      { intros E. apply descriptor_eqb_eq in E. congruence. }
      split; [discriminate |]. split; [done | done].
Qed.

(** C5. Before a write, [store] enforces the budget: a store within the
    ceiling is left alone; one above it loses entries until its usage is
    at most 80% of the budget, and no further (putting back one of the
    deleted entries would exceed 80%); every deleted entry is at least as
    old, by modification time, as every entry kept; nothing is added or
    changed; and the write then goes into the store so reduced. *)
Theorem store_enforces_budget (c : context) (k : kind) (p : parameters)
    (payload : string) (mtime : Z) (st : gmap string slot) :
  enforce_budget (size_budget c) st ⊆ st
  /\ (usage st <= size_budget c -> enforce_budget (size_budget c) st = st)
  /\ (size_budget c < usage st ->
      100 * usage (enforce_budget (size_budget c) st) <= 80 * size_budget c
      /\ exists k0 s0,
           st !! k0 = Some s0
           /\ enforce_budget (size_budget c) st !! k0 = None
           /\ 80 * size_budget c
              < 100 * (usage (enforce_budget (size_budget c) st) + slot_size s0))
  /\ (forall k1 s1 k2 s2,
        st !! k1 = Some s1 ->
        enforce_budget (size_budget c) st !! k1 = None ->
        enforce_budget (size_budget c) st !! k2 = Some s2 ->
        (slot_mtime s1 <= slot_mtime s2)%Z)
  /\ (forall key0,
        deriveKey c k p = Some key0 ->
        exists written,
          store c k p payload mtime st
          = (Some key0, <[key0 := written]> (enforce_budget (size_budget c) st))).
Proof.
  set (budget := size_budget c).
  assert (map_to_list st ≡ₚ merge_sort older (map_to_list st)) as Hp
    by (by rewrite merge_sort_Permutation).
  pose proof (StronglySorted_merge_sort older (map_to_list st)) as Hs.
  split; [| split; [| split; [| split]]].
  - unfold enforce_budget. destruct (usage st <=? budget)%nat; [done |].
    apply evict_subseteq.
  - intros Hle. unfold enforce_budget.
    by rewrite (proj2 (Nat.leb_le _ _) Hle).
  - intros Hgt. unfold enforce_budget.
    rewrite (proj2 (Nat.leb_gt _ _) Hgt). split.
    + apply Nat.leb_le. by apply (evict_within_target budget).
    + apply evict_no_more; [done | by apply within_target_budget].
  - intros k1 s1 k2 s2 H1 Hgone Hkept. unfold enforce_budget in Hgone, Hkept.
    destruct (usage st <=? budget)%nat; [congruence |].
    exact (evict_oldest budget _ st Hp Hs k1 s1 k2 s2 H1 Hgone Hkept).
  - intros key0 Hkey. unfold store. rewrite Hkey.
    destruct (compress c payload) as [bytes was_compressed]. by eexists.
Qed.

Lemma unlisted_route (r : routing) (k : kind) : ~ listed r k <-> route r k = [].
Proof.
  destruct k as [| | | | | | category | name]; simpl.
  1-6: split; [tauto | discriminate].
  - destruct (Py.contains category (agent_categories r)) eqn:Hc.
    + apply PyFacts.contains_true in Hc. split; [tauto | discriminate].
    + apply PyFacts.contains_false in Hc. tauto.
  - split; [done | tauto].
Qed.

(** C7. For a kind the routing table does not list, the Router consults
    no backend and writes to none: [lookup] is a miss, [store] returns no
    key, and the state of every backend is what it was. *)
Theorem unlisted_kind_never_cached {S : Type} (r : routing) (b : backends S)
    (k : kind) (p : parameters) (payload : string) (s : S) :
  ~ listed r k ->
  router_lookup r b k p s = (Miss, s)
  /\ router_store r b k p payload s = (None, s).
Proof.
  intros Hk. apply unlisted_route in Hk.
  unfold router_lookup, router_store. by rewrite Hk.
Qed.

End CacheFacts.

(** ** [update_coin_id_metadata.py]: the script as a whole *)
Module UpdateScriptFacts.
Import Py UpdateCoinIdMetadata UpdateCoinIdMetadataFacts.

Lemma dict_setitem_same (k : string) (v : json) (d : dict) :
  dict_lookup k d = Some v -> dict_setitem k v d = d.
Proof.
  induction d as [| [k' v'] d IH]; simpl; [done |].
  destruct (String.eqb k' k); [by intros [= ->] | intros Hk; by rewrite IH].
Qed.

Lemma dict_setitem_keys (k : string) (v : json) (d : dict) :
  map fst (dict_setitem k v d)
  = map fst d ++ (if dict_lookup k d is Some _ then [] else [k]).
Proof.
  induction d as [| [k' v'] d IH]; simpl; [done |].
  destruct (String.eqb k' k); simpl; [by rewrite app_nil_r | by rewrite IH].
Qed.

(** X5. Rebranding a document twice is rebranding it once. *)
Theorem retitle_idempotent (d : dict) : retitle (retitle d) = retitle d.
Proof.
  unfold retitle at 1.
  rewrite (dict_setitem_same "title" new_title (retitle d)) by apply retitle_title.
  apply dict_setitem_same, retitle_subtitle.
Qed.

(** X6. The keys of a document keep their order; [title] and
    [subtitle], when missing, are added at the end, in that order. *)
Theorem retitle_keeps_key_order (d : dict) :
  map fst (retitle d)
  = map fst d
    ++ (if dict_lookup "title" d is Some _ then [] else ["title"])
    ++ (if dict_lookup "subtitle" d is Some _ then [] else ["subtitle"]).
Proof.
  unfold retitle. rewrite !dict_setitem_keys, <- app_assoc.
  by rewrite dict_lookup_setitem_ne by discriminate.
Qed.

Lemma retitle_infos_world (items : dict) (w : world) :
  snd (retitle_infos items w) = w.
Proof.
  destruct (retitle_infos_cases items w) as [(items' & -> & _) | ->]; done.
Qed.

Lemma retitle_infos_returns (items : dict) (w : world) :
  (exists items', fst (retitle_infos items w) = inl items')
  <-> Forall (fun item => exists d, snd item = JObj d) items.
Proof.
  induction items as [| [locale info] rest IH].
  - split; [constructor | by exists []].
  - cbn [retitle_infos]. unfold bind. split.
    + intros [items' Hrun]. destruct info as [| | | | | | d]; try discriminate.
      cbn [py_setitem ret] in Hrun. constructor; [by exists d |].
      apply IH.
      destruct (retitle_infos_cases rest w) as [(rest' & E & _) | E];
        rewrite E in Hrun |- *; [by eexists | discriminate].
    + intros HF. apply Forall_cons in HF as [[d Hd] HF]. cbn [snd] in Hd. subst info.
      cbn [py_setitem ret]. apply IH in HF as [rest' Hrest].
      destruct (retitle_infos_cases rest w) as [(rest'' & E & _) | E];
        rewrite E in Hrest |- *; [by eexists | discriminate].
Qed.

Lemma retitle_infos_TypeError (items : dict) (w : world) :
  ~ Forall (fun item => exists d, snd item = JObj d) items ->
  fst (retitle_infos items w) = inr TypeError.
Proof.
  intros Hn. destruct (retitle_infos_cases items w) as [(items' & E & _) | ->]; [| done].
  exfalso. apply Hn, (retitle_infos_returns items w). exists items'. by rewrite E.
Qed.

Lemma update_store_config_world (store_config : json) (w : world) :
  snd (update_store_config store_config w) = w.
Proof.
  unfold update_store_config, bind.
  destruct store_config as [| | | | | | c]; try done. cbn [py_getitem].
  destruct (dict_lookup "apple" c) as [apple |]; [| done]. cbn [ret].
  destruct apple as [| | | | | | a]; try done. cbn [py_getitem].
  destruct (dict_lookup "info" a) as [infos |]; [| done]. cbn [ret].
  destruct infos as [| | | | | | infos]; try done. cbn [py_items ret].
  by destruct (retitle_infos_cases infos w) as [(items' & -> & _) | ->].
Qed.

Lemma update_store_config_returns (store_config : json) (w : world) :
  (exists store_config', fst (update_store_config store_config w) = inl store_config')
  <-> well_formed_config store_config.
Proof.
  unfold well_formed_config, update_store_config, bind. split.
  - intros [cfg' Hrun].
    destruct store_config as [| | | | | | c]; try discriminate. cbn [py_getitem] in Hrun.
    destruct (dict_lookup "apple" c) as [apple |] eqn:Hc; [| discriminate].
    cbn [ret] in Hrun.
    destruct apple as [| | | | | | a]; try discriminate. cbn [py_getitem] in Hrun.
    destruct (dict_lookup "info" a) as [infos |] eqn:Ha; [| discriminate].
    cbn [ret] in Hrun.
    destruct infos as [| | | | | | infos]; try discriminate. cbn [py_items ret] in Hrun.
    exists c, a, infos. do 3 (split; [done |]).
    apply (retitle_infos_returns infos w).
    destruct (retitle_infos_cases infos w) as [(items' & E & _) | E];
      rewrite E in Hrun |- *; [by eexists | discriminate].
  - intros (c & a & infos & -> & Hc & Ha & HF).
    cbn [py_getitem]. rewrite Hc. cbn [ret py_getitem]. rewrite Ha.
    cbn [ret py_items].
    apply (retitle_infos_returns infos w) in HF as [items' Hitems].
    destruct (retitle_infos_cases infos w) as [(items'' & E & _) | E];
      rewrite E in Hitems |- *; [by eexists | discriminate].
Qed.

(** X4. The loop over [store_config["apple"]["info"]] returns exactly
    when the configuration is an object whose [apple] is an object whose
    [info] is an object of objects; a missing [apple] or [info] raises
    [KeyError], a locale that is not an object raises [TypeError]; and
    the loop itself writes nothing. *)
Theorem update_store_config_needs_objects (store_config : json) (w : world) :
  snd (update_store_config store_config w) = w
  /\ ((exists store_config', fst (update_store_config store_config w) = inl store_config')
      <-> well_formed_config store_config)
  /\ (forall c,
        store_config = JObj c -> dict_lookup "apple" c = None ->
        fst (update_store_config store_config w) = inr KeyError)
  /\ (forall c a,
        store_config = JObj c -> dict_lookup "apple" c = Some (JObj a) ->
        dict_lookup "info" a = None ->
        fst (update_store_config store_config w) = inr KeyError)
  /\ (forall c a infos,
        store_config = JObj c -> dict_lookup "apple" c = Some (JObj a) ->
        dict_lookup "info" a = Some (JObj infos) ->
        ~ Forall (fun item => exists d, snd item = JObj d) infos ->
        fst (update_store_config store_config w) = inr TypeError).
Proof.
  split; [apply update_store_config_world |].
  split; [apply update_store_config_returns |]. split; [| split].
  - intros c -> Hc. unfold update_store_config, bind. cbn [py_getitem]. by rewrite Hc.
  - intros c a -> Hc Ha. unfold update_store_config, bind. cbn [py_getitem].
    rewrite Hc. cbn [ret py_getitem]. by rewrite Ha.
  - intros c a infos -> Hc Ha Hn. unfold update_store_config, bind. cbn [py_getitem].
    rewrite Hc. cbn [ret py_getitem]. rewrite Ha. cbn [ret py_items].
    pose proof (retitle_infos_TypeError infos w Hn) as E.
    pose proof (retitle_infos_world infos w) as Ew.
    destruct (retitle_infos infos w) as [[items' | e] w']; cbn [fst] in E; [discriminate |].
    by injection E as ->.
Qed.

End UpdateScriptFacts.

(** ** [update_coin_id_metadata.py]: what is dumped, and what is raised *)
Module UpdateRunFacts.
Import Py MachineFacts UpdateCoinIdMetadata UpdateCoinIdMetadataFacts UpdateScriptFacts.

#[local] Set Warnings "-clear-no-such-hyp".

(** The loop over [apple.info] leaves the configuration it was given
    with the members of every locale retitled. *)
Lemma update_store_config_retitles (store_config store_config' : json) (w : world) :
  fst (update_store_config store_config w) = inl store_config' ->
  config_retitled store_config store_config'.
Proof.
  intros Hrun. unfold update_store_config, bind in Hrun.
  destruct store_config as [| | | | | | c]; try discriminate. cbn [py_getitem] in Hrun.
  destruct (dict_lookup "apple" c) as [apple |] eqn:Hc; [| discriminate].
  cbn [ret] in Hrun.
  destruct apple as [| | | | | | a]; try discriminate. cbn [py_getitem] in Hrun.
  destruct (dict_lookup "info" a) as [infos |] eqn:Ha; [| discriminate].
  cbn [ret] in Hrun.
  destruct infos as [| | | | | | infos]; try discriminate. cbn [py_items ret] in Hrun.
  destruct (retitle_infos_cases infos w) as [(infos' & E & HF) | E];
    rewrite E in Hrun; [| discriminate].
  cbn [py_setitem ret fst] in Hrun. injection Hrun as <-.
  by exists c, a, infos, infos'.
Qed.

(** The statements on [store.config.json], by what the load gives. *)
Lemma rewrite_store_config_cases (w : world) :
  rewrite_store_config w =
  match load_json store_config_path w with
  | (inr e, w1) => (inr e, w1)
  | (inl store_config, w1) =>
      match fst (update_store_config store_config w1) with
      | inr e => (inr e, w1)
      | inl store_config' => dump_json store_config_path store_config' w1
      end
  end.
Proof.
  unfold rewrite_store_config, bind.
  destruct (load_json store_config_path w) as [[cfg | e] w1]; [| done].
  pose proof (update_store_config_world cfg w1) as Hw.
  destruct (update_store_config cfg w1) as [[cfg' | e] w2]; cbn [fst snd] in Hw |- *;
    by subst w2.
Qed.

(** A load that goes through: the three operations it asked. *)
Lemma load_json_through (path : string) (w : world) (data : json) :
  next w 0 (OpenRead path) = inl tt ->
  next w 1 (JsonLoad path) = inl data ->
  next w 2 (Close path) = inl tt ->
  load_json path w
  = (inl data, extend w [ok (OpenRead path); ok (JsonLoad path); ok (Close path)]).
Proof.
  intros H0 H1 H2. unfold load_json. by rewrite with_open_perform, H0, H2, H1.
Qed.

(** A dump whose open goes through: the three operations it asked, and
    when it returns. *)
Lemma dump_json_opened (path : string) (data : json) (w : world) :
  next w 0 (OpenWrite path) = inl tt ->
  exists t,
    snd (dump_json path data w) = extend w t
    /\ map asked t = [OpenWrite path; JsonDump path data; Close path]
    /\ (returns (dump_json path data w) <-> Forall succeeded t).
Proof.
  intros H0. unfold dump_json, returns. rewrite with_open_perform, H0.
  destruct (next w 2 (Close path)) as [u | e];
    destruct (next w 1 (JsonDump path data)) as [u' | e'];
    (eexists; split; [reflexivity |]; split; [reflexivity |]);
    cbn [fst event_of]; rewrite !Forall_cons, Forall_nil;
    unfold succeeded, ok, ko; cbn [raised];
    (split; [intros [a Ha]; try discriminate Ha; by repeat split
            | intros (Ha & Hb & Hc & _); try discriminate; by eexists]).
Qed.

(** C10. Both branches of the locale test assign the same two values.
    On a document, these assignments set [title] to
    [Coin ID: AI Scanner & Value] and [subtitle] to
    [Best AI Coin Identification] and leave every other key as it was.
    Whenever the machine lets [filepath] be opened and closed and
    [json.load] gives an object, [update_json_file] goes on to open
    [filepath] for writing, and once that open goes through the document
    it hands to [json.dump] for [filepath] is the loaded one with these
    two keys set, whatever the path; the call returns exactly when all
    six operations went through. The statements on [store.config.json]
    do the same with the configuration they loaded from that file: what
    they dump into it is that configuration with the members of every
    locale of [apple.info] retitled, the other keys of [apple] and of
    the configuration left alone. *)
Theorem title_and_subtitle_rewritten :
  (forall data w, rebrand true data w = rebrand false data w)
  /\ (forall d,
        dict_lookup "title" (retitle d) = Some (JStr "Coin ID: AI Scanner & Value")
        /\ dict_lookup "subtitle" (retitle d) = Some (JStr "Best AI Coin Identification")
        /\ forall k, k <> "title" -> k <> "subtitle" ->
                     dict_lookup k (retitle d) = dict_lookup k d)
  /\ (forall filepath w d,
        next w 0 (OpenRead filepath) = inl tt ->
        next w 1 (JsonLoad filepath) = inl (JObj d) ->
        next w 2 (Close filepath) = inl tt ->
        next w 3 (OpenWrite filepath) = inl tt ->
        exists t,
          snd (update_json_file filepath w) = extend w t
          /\ map asked t
             = [ OpenRead filepath; JsonLoad filepath; Close filepath;
                 OpenWrite filepath; JsonDump filepath (JObj (retitle d));
                 Close filepath ]
          /\ (returns (update_json_file filepath w) <-> Forall succeeded t))
  /\ (forall store_config w,
        next w 0 (OpenRead store_config_path) = inl tt ->
        next w 1 (JsonLoad store_config_path) = inl store_config ->
        next w 2 (Close store_config_path) = inl tt ->
        well_formed_config store_config ->
        next w 3 (OpenWrite store_config_path) = inl tt ->
        exists store_config' t,
          config_retitled store_config store_config'
          /\ snd (rewrite_store_config w) = extend w t
          /\ map asked t
             = [ OpenRead store_config_path; JsonLoad store_config_path;
                 Close store_config_path; OpenWrite store_config_path;
                 JsonDump store_config_path store_config';
                 Close store_config_path ]
          /\ (returns (rewrite_store_config w) <-> Forall succeeded t))
  /\ (forall store_config store_config',
        config_retitled store_config store_config' ->
        exists c a infos infos',
          store_config = JObj c
          /\ dict_lookup "apple" c = Some (JObj a)
          /\ dict_lookup "info" a = Some (JObj infos)
          /\ Forall2 retitled infos infos'
          /\ store_config'
             = JObj (dict_setitem "apple"
                       (JObj (dict_setitem "info" (JObj infos') a)) c)
          /\ (forall k w, k <> "apple" ->
                py_getitem store_config' k w = py_getitem store_config k w)
          /\ (forall k, k <> "info" ->
                dict_lookup k (dict_setitem "info" (JObj infos') a)
                = dict_lookup k a)).
Proof.
  split; [done |]. split; [| split; [| split]].
  - intros d. split; [apply retitle_title |].
    split; [apply retitle_subtitle | intros k; apply retitle_other].
  - intros filepath w d H0 H1 H2 H3.
    rewrite update_json_file_cases, (load_json_through filepath w (JObj d)) by done.
    destruct (dump_json_opened filepath (JObj (retitle d))
                (extend w [ok (OpenRead filepath); ok (JsonLoad filepath);
                           ok (Close filepath)])) as (t & Hw & Hops & Hret).
    { by rewrite next_extend. }
    eexists. rewrite Hw, extend_extend. split; [reflexivity |].
    rewrite map_app, Hops. split; [reflexivity |].
    rewrite Hret, Forall_app, !Forall_cons, Forall_nil. unfold succeeded, ok. cbn [raised].
    tauto.
  - intros cfg w H0 H1 H2 Hwf H3.
    rewrite rewrite_store_config_cases, (load_json_through store_config_path w cfg) by done.
    set (w1 := extend w _).
    apply (update_store_config_returns cfg w1) in Hwf as [cfg' Hcfg'].
    rewrite Hcfg'.
    destruct (dump_json_opened store_config_path cfg' w1) as (t & Hw & Hops & Hret).
    { unfold w1. by rewrite next_extend. }
    exists cfg'. eexists. split; [by apply (update_store_config_retitles cfg cfg' w1) |].
    unfold w1 in Hw, Hret |- *. rewrite Hw, extend_extend. split; [reflexivity |].
    rewrite map_app, Hops. split; [reflexivity |].
    rewrite Hret, Forall_app, !Forall_cons, Forall_nil. unfold succeeded, ok. cbn [raised].
    tauto.
  - intros cfg cfg' (c & a & infos & infos' & -> & Hc & Ha & HF & ->).
    exists c, a, infos, infos'. do 5 (split; [done |]). split.
    + intros k w Hk. cbn [py_getitem]. by rewrite dict_lookup_setitem_ne.
    + intros k Hk. by rewrite dict_lookup_setitem_ne.
Qed.


End UpdateRunFacts.

(** ** [update_coin_id_metadata.py]: the script as a whole *)
Module UpdateMainFacts.
Import Py MachineFacts UpdateCoinIdMetadata UpdateCoinIdMetadataFacts UpdateScriptFacts.

#[local] Set Warnings "-clear-no-such-hyp".

Lemma py_get_world (data : json) (k : string) (dflt : json) (w : world) :
  snd (py_get data k dflt w) = w.
Proof. by destruct data. Qed.

Lemma rebrand_world (english : bool) (data : json) (w : world) :
  snd (rebrand english data w) = w.
Proof. by destruct english, data. Qed.

Lemma load_json_confined (path : string) :
  confined (on_json path) (load_json path).
Proof. apply confined_with_open; [done | done |]. by apply confined_perform. Qed.

Lemma dump_json_confined (path : string) (data : json) :
  confined (on_json path) (dump_json path data).
Proof. apply confined_with_open; [done | done |]. by apply confined_perform. Qed.

(** A call of [update_json_file] asks for nothing but operations on its
    file. *)
Lemma update_json_file_confined (filepath : string) :
  confined (on_json filepath) (update_json_file filepath).
Proof.
  unfold update_json_file.
  apply confined_bind; [apply load_json_confined |]. intros data.
  apply confined_bind; [apply confined_quiet, py_get_world |]. intros _.
  apply confined_bind; [apply confined_quiet, py_get_world |]. intros _.
  apply confined_bind; [apply confined_quiet, rebrand_world |]. intros data'.
  apply dump_json_confined.
Qed.

Lemma update_locales_confined (names : list string) :
  confined (fun o => exists p, on_json p o /\ locale_file names p)
    (update_locales names).
Proof.
  unfold update_locales. apply confined_for_each. intros filename Hin.
  destruct (endswith filename ".json") eqn:Hjson; [| apply confined_ret].
  eapply confined_weaken; [| apply update_json_file_confined].
  intros o Ho. exists (path_join locales_dir filename). split; [done |].
  by exists filename.
Qed.

Lemma rewrite_store_config_confined :
  confined (on_json store_config_path) rewrite_store_config.
Proof.
  unfold rewrite_store_config.
  apply confined_bind; [apply load_json_confined |]. intros store_config.
  apply confined_bind; [apply confined_quiet, update_store_config_world |].
  intros store_config'. apply dump_json_confined.
Qed.

(** The statements before the last one, once the listing gave [names]. *)
Lemma body_confined (names : list string) :
  confined (fun o => exists p, on_json p o
                               /\ (p = store_config_path \/ locale_file names p))
    (bind (update_locales names) (fun _ => rewrite_store_config)).
Proof.
  apply confined_bind.
  - eapply confined_weaken; [| apply update_locales_confined].
    intros o (p & Ho & Hp). exists p. by split; [| right].
  - intros _. eapply confined_weaken; [| apply rewrite_store_config_confined].
    intros o Ho. exists store_config_path. by split; [| left].
Qed.

(** The script, by the answer to the listing and the outcome of the
    statements before the last one. *)
Lemma main_cases (w : world) :
  main w =
  match next w 0 (ListDir locales_dir) with
  | inr e => (inr e, extend w [ko (ListDir locales_dir) e])
  | inl names =>
      match bind (update_locales names) (fun _ => rewrite_store_config)
              (extend w [ok (ListDir locales_dir)]) with
      | (inr e, w') => (inr e, w')
      | (inl _, w') =>
          (next w' 0 (Print success_line),
           extend w' [event_of (Print success_line) (next w' 0 (Print success_line))])
      end
  end.
Proof.
  unfold main. unfold bind at 1. unfold perform at 1.
  destruct (next w 0 (ListDir locales_dir)) as [names | e]; [| done].
  cbn [event_of]. fold (ok (ListDir locales_dir)).
  rewrite <- bind_assoc. unfold bind at 1.
  by destruct (bind (update_locales names) _ _) as [[[] | e] w'].
Qed.

Lemma on_json_within (names : list string) (o : operation) :
  (exists p, on_json p o /\ (p = store_config_path \/ locale_file names p)) ->
  within names o.
Proof. intros (p & Ho & Hp). destruct o; cbn in *; by simplify_eq. Qed.

(** X1. Whether the script returns or raises, it touches nothing but the
    locales directory, which it lists once and first, the [.json]
    entries of that listing, and [store.config.json]: every file it
    opens, loads, dumps into or closes is one of these, entries of the
    listing that do not end in [.json] are never opened, and the only
    line it may print is the last one. When the listing raises, the
    script has asked for nothing else. *)
Theorem main_touches_locales_and_config_only (w : world) :
  exists t,
    snd (main w) = extend w t
    /\ (forall e, next w 0 (ListDir locales_dir) = inr e ->
          t = [ko (ListDir locales_dir) e])
    /\ (forall names, next w 0 (ListDir locales_dir) = inl names ->
          exists t', t = ok (ListDir locales_dir) :: t'
                     /\ Forall (fun ev => within names (asked ev)) t').
Proof.
  rewrite main_cases.
  destruct (next w 0 (ListDir locales_dir)) as [names | e].
  2: { eexists. split; [reflexivity |]. split; [by intros ? [= <-] | done]. }
  destruct (body_confined names (extend w [ok (ListDir locales_dir)]))
    as (t & Hw & HP & _).
  assert (Forall (fun ev => within names (asked ev)) t) as Hin.
  { eapply Forall_impl; [exact HP |]. intros ev. apply on_json_within. }
  destruct (bind (update_locales names) _ _) as [[[] | e] w']; cbn [snd] in Hw; subst w'.
  - rewrite !extend_extend. cbn [app]. eexists. split; [reflexivity |].
    split; [done |]. intros ? [= <-]. eexists. split; [reflexivity |].
    apply Forall_app. split; [done |]. by repeat constructor.
  - rewrite !extend_extend. cbn [app]. eexists. split; [reflexivity |].
    split; [done |]. intros ? [= <-]. by eexists.
Qed.

Lemma on_json_not_print (p : string) (o : operation) :
  on_json p o -> o <> Print success_line.
Proof. by destruct o. Qed.

(** Where an operation can stand in a list that asks for it at most at
    its end. *)
Lemma split_at_last (s last t1 t2 : list event) (ev : event) (o : operation) :
  Forall (fun ev => asked ev <> o) s -> length last <= 1 ->
  s ++ last = t1 ++ ev :: t2 -> asked ev = o ->
  t2 = [] /\ t1 = s /\ last = [ev].
Proof.
  intros Hs Hlen Heq Hev.
  apply app_eq_inv in Heq as [(k & -> & Hk) | (k & -> & Hk)].
  - destruct k as [| ev' k].
    + cbn in Hk. subst last. destruct t2; [| cbn in Hlen; lia].
      by rewrite app_nil_r.
    + cbn in Hk. injection Hk as <- _.
      apply Forall_app in Hs as [_ Hs]. apply Forall_cons in Hs as [Hs _]. done.
  - subst last. rewrite length_app in Hlen. cbn in Hlen.
    destruct k; [| cbn in Hlen; lia]. destruct t2; [| cbn in Hlen; lia].
    by rewrite app_nil_r.
Qed.

(** The script asks for the printing of its last line at most once, at
    the end, after everything before it went through. *)
Lemma main_shape (w : world) :
  exists s last,
    snd (main w) = extend w (s ++ last)
    /\ Forall (fun ev => asked ev <> Print success_line) s
    /\ ((last = [] /\ exists e, raises (main w) e)
        \/ (exists r : unit + exn,
              last = [{| asked := Print success_line;
                         raised := match r with inl _ => None | inr e => Some e end |}]
              /\ fst (main w) = r /\ Forall succeeded s)).
Proof.
  rewrite main_cases.
  destruct (next w 0 (ListDir locales_dir)) as [names | e].
  2: { exists [ko (ListDir locales_dir) e], []. split; [done |].
       split; [by repeat constructor |]. left. split; [done |]. by exists e. }
  destruct (body_confined names (extend w [ok (ListDir locales_dir)]))
    as (t & Hw & HP & Hret).
  assert (Forall (fun ev => asked ev <> Print success_line)
            (ok (ListDir locales_dir) :: t)) as Hs.
  { apply Forall_cons. split; [done |]. eapply Forall_impl; [exact HP |].
    intros ev (p & Hp & _). by apply (on_json_not_print p). }
  destruct (bind (update_locales names) _ _) as [[[] | e] w']; cbn [snd] in Hw; subst w'.
  - exists (ok (ListDir locales_dir) :: t). eexists.
    rewrite !extend_extend. cbn [app]. split; [reflexivity |]. split; [done |].
    right. eexists. split; [reflexivity |]. split; [reflexivity |].
    apply Forall_cons. split; [done |]. apply Hret. by exists tt.
  - exists (ok (ListDir locales_dir) :: t), [].
    rewrite !extend_extend, app_nil_r. cbn [app]. split; [done |]. split; [done |].
    left. split; [done |]. by exists e.
Qed.

(** X2. The script asks for the printing of
    [Successfully updated all locales and store.config.json] at most
    once, as its last operation, and only after every operation before
    it went through; it returns exactly when that printing went through.
    A run that raises has not printed the line. *)
Theorem main_prints_success_only_on_return (w : world) :
  exists t,
    snd (main w) = extend w t
    /\ (returns (main w) <-> exists t', t = t' ++ [ok (Print success_line)])
    /\ (forall t1 ev t2,
          t = t1 ++ ev :: t2 -> asked ev = Print success_line ->
          t2 = [] /\ Forall succeeded t1)
    /\ (forall e, raises (main w) e -> ok (Print success_line) ∉ t).
Proof.
  destruct (main_shape w) as (s & last & Hw & Hs & Hlast).
  assert (ok (Print success_line) ∉ s) as Hnot.
  { intros Hin. rewrite Forall_forall in Hs. by apply (Hs _ Hin). }
  exists (s ++ last). split; [done |].
  destruct Hlast as [[-> [e He]] | (r & -> & Hr & Hok)].
  - split; [| split].
    + split.
      * intros Hret. by destruct (raises_not_returns _ _ He).
      * intros [t' Ht']. rewrite app_nil_r in Ht'. subst s.
        destruct Hnot. apply elem_of_app. right. left.
    + intros t1 ev t2 Heq Hev.
      by destruct (split_at_last s [] t1 t2 ev _ Hs (Nat.le_0_l _) Heq Hev) as (_ & _ & ?).
    + intros _ _. by rewrite app_nil_r.
  - split; [| split].
    + unfold returns. rewrite Hr. split.
      * intros [[] ->]. by exists s.
      * intros [t' Ht']. apply app_inj_tail in Ht' as [_ Hev].
        destruct r as [[] | e]; [by exists tt | discriminate].
    + intros t1 ev t2 Heq Hev.
      destruct (split_at_last s [_] t1 t2 ev _ Hs (le_n 1) Heq Hev) as (-> & -> & _).
      done.
    + intros e He Hin. unfold raises in He. rewrite Hr in He. subst r.
      apply elem_of_app in Hin as [Hin | Hin]; [done |].
      apply elem_of_cons in Hin as [Hin | Hin]; [by rewrite He in Hin |].
      by apply elem_of_nil in Hin.
Qed.

(** A call that returns has dumped a retitled document into its file,
    and all six of its operations went through. *)
Lemma update_json_file_returns (filepath : string) (w : world) :
  returns (update_json_file filepath w) ->
  exists d,
    snd (update_json_file filepath w)
    = extend w [ ok (OpenRead filepath); ok (JsonLoad filepath); ok (Close filepath);
                 ok (OpenWrite filepath);
                 ok (JsonDump filepath (JObj (retitle d))); ok (Close filepath) ].
Proof.
  rewrite update_json_file_cases. unfold load_json. rewrite with_open_perform.
  unfold returns.
  destruct (next w 0 (OpenRead filepath)) as [u0 | e0]; [| by intros [a Ha]].
  destruct (next w 2 (Close filepath)) as [u2 | e2]; [| by intros [a Ha]].
  destruct (next w 1 (JsonLoad filepath)) as [v | e1]; [| by intros [a Ha]].
  destruct v as [| b | n | f | s | xs | d]; try by intros [a Ha].
  unfold dump_json. rewrite with_open_perform, ?next_extend. cbn [length Nat.add].
  destruct (next w 3 (OpenWrite filepath)) as [u3 | e3]; [| by intros [a Ha]].
  rewrite ?next_extend. cbn [length Nat.add].
  destruct (next w 5 (Close filepath)) as [u5 | e5]; [| by intros [a Ha]].
  destruct (next w 4 (JsonDump filepath (JObj (retitle d)))) as [u4 | e4];
    [| by intros [a Ha]].
  intros _. exists d. by rewrite extend_extend.
Qed.

(** A loop over the listing that returns has done so for every [.json]
    entry. *)
Lemma update_locales_returns (names : list string) (w : world) :
  returns (update_locales names w) ->
  exists t,
    snd (update_locales names w) = extend w t
    /\ Forall succeeded t
    /\ forall filename,
         filename ∈ names -> endswith filename ".json" = true ->
         exists d,
           ok (JsonDump (path_join locales_dir filename) (JObj (retitle d))) ∈ t.
Proof.
  revert w. induction names as [| name names IH]; intros w Hret.
  - exists []. cbn. rewrite extend_nil. split; [done |]. split; [done |].
    intros filename Hin. by apply elem_of_nil in Hin.
  - unfold update_locales in *. cbn [for_each] in *. unfold bind in *.
    destruct (endswith name ".json") eqn:Hjson.
    + pose proof (update_json_file_returns (path_join locales_dir name) w) as Hone.
      destruct (update_json_file (path_join locales_dir name) w) as [[[] | e] w1];
        [| by destruct Hret].
      destruct Hone as [d Hw1]; [by exists tt |]. cbn [snd] in Hw1. subst w1.
      destruct (IH _ Hret) as (t & Hw & Hok & Hall).
      eexists. rewrite Hw, extend_extend. split; [reflexivity |]. split.
      * apply Forall_app. split; [by repeat constructor | done].
      * intros filename Hin Hends. apply elem_of_cons in Hin as [-> | Hin].
        -- exists d. apply elem_of_app. left. do 4 right. left.
        -- destruct (Hall filename Hin Hends) as [d' Hd'].
           exists d'. apply elem_of_app. by right.
    + cbn [ret] in *. destruct (IH _ Hret) as (t & Hw & Hok & Hall).
      exists t. split; [done |]. split; [done |].
      intros filename Hin Hends. apply elem_of_cons in Hin as [-> | Hin]; [congruence |].
      by apply Hall.
Qed.

(** X3. The script is not transactional. When the loop over the locales
    has returned and a statement on [store.config.json] then raises, the
    script raises that exception with the locales left rewritten: for
    every [.json] entry of the listing a retitled document was dumped
    into its file and every operation of the loop went through, and what
    the script asked for afterwards concerns [store.config.json] alone. *)
Theorem locales_stay_rewritten_on_failure (w : world) (names : list string)
    (e : exn) :
  next w 0 (ListDir locales_dir) = inl names ->
  returns (update_locales names (extend w [ok (ListDir locales_dir)])) ->
  raises (rewrite_store_config
            (snd (update_locales names (extend w [ok (ListDir locales_dir)])))) e ->
  raises (main w) e
  /\ exists t t',
       snd (update_locales names (extend w [ok (ListDir locales_dir)]))
       = extend w (ok (ListDir locales_dir) :: t)
       /\ snd (main w) = extend w (ok (ListDir locales_dir) :: t ++ t')
       /\ Forall succeeded t
       /\ (forall filename,
             filename ∈ names -> endswith filename ".json" = true ->
             exists d,
               ok (JsonDump (path_join locales_dir filename) (JObj (retitle d))) ∈ t)
       /\ Forall (fun ev => on_json store_config_path (asked ev)) t'.
Proof.
  intros Hlist Hret Hraise. rewrite main_cases, Hlist. unfold bind.
  destruct (update_locales_returns names _ Hret) as (t & Hw & Hok & Hall).
  destruct (update_locales names _) as [[[] | e0] w1]; [| by destruct Hret].
  cbn [snd] in Hw, Hraise. subst w1. rewrite extend_extend in Hraise |- *.
  cbn [app] in Hraise |- *.
  destruct (rewrite_store_config_confined (extend w (ok (ListDir locales_dir) :: t)))
    as (t' & Hw' & HP & _).
  unfold raises in *.
  destruct (rewrite_store_config _) as [[[] | e'] w2]; [discriminate |].
  cbn [fst snd] in *. subst w2. split; [done |].
  exists t, t'. split; [done |]. rewrite extend_extend. cbn [app]. done.
Qed.

End UpdateMainFacts.

(** ** The scripts and the cache on the sample inputs *)
Module Runs.
Import Py Machine Samples Machines CacheSamples.

(** The checkout with an npm app fails the check with two errors, in
    walk order; [node_modules] is not looked into. *)
Example check_fails_on_checkout :
  @ValidatePm.check_package_managers sample_library checkout
  = {| ValidatePm.printed :=
         [String.concat newline
            ["Forbidden file found: ./apps/numy/package-lock.json";
             "Invalid packageManager in ./apps/numy/package.json: expected 'yarn@4.12.0', found 'npm@10.2.0'"]];
       ValidatePm.exit_status := Some 1%Z |}.
Proof. vm_compute. reflexivity. Qed.

Example check_passes_on_clean_checkout :
  @ValidatePm.check_package_managers sample_library clean_checkout
  = {| ValidatePm.printed := [ValidatePm.success_message];
       ValidatePm.exit_status := None |}.
Proof. vm_compute. reflexivity. Qed.

(** A [package.json] holding an array is reported as unreadable. *)
Example check_reports_non_object :
  @ValidatePm.check_package_managers sample_library
    [("package.json", File (Text "[]"))]
  = {| ValidatePm.printed :=
         ["Error reading ./package.json: 'list' object has no attribute 'get'"];
       ValidatePm.exit_status := Some 1%Z |}.
Proof. vm_compute. reflexivity. Qed.

Example deploy_targets_of_checkout :
  DeployToolVersions.targets checkout = ["."; "."; "./apps/numy"].
Proof. vm_compute. reflexivity. Qed.

(** On a machine that fails nowhere, the deployment asks for the four
    operations of each of its three calls, in order. *)
Example deploy_asks_in_order :
  map asked (history (snd (DeployToolVersions.main checkout (scripted willing))))
  = DeployToolVersions.steps "." ++ DeployToolVersions.steps "."
    ++ DeployToolVersions.steps "./apps/numy".
Proof. vm_compute. reflexivity. Qed.

Lemma tool_versions_deployed_witness :
  DeployToolVersions.unique_names (Dir checkout) = true
  /\ DeployToolVersions.main checkout (scripted willing)
     = for_each (DeployToolVersions.targets checkout)
         DeployToolVersions.create_tool_versions (scripted willing).
Proof.
  split; [reflexivity |].
  apply (DeployToolVersionsFacts.tool_versions_deployed checkout (scripted willing) ".").
  reflexivity.
Defined.

(** With a directory in the place of [./.tool-versions], the first
    call raises at its open and the script ends there: nothing is
    written or printed, and [./a], a directory of the walk that holds a
    [package.json], gets no call. *)
Lemma deployment_stops_at_directory_in_the_way :
  ("./a" ∈ DeployToolVersions.targets blocked_checkout
   /\ DeployToolVersions.create_tool_versions "." (scripted directory_in_the_way)
      = (inr IsADirectoryError,
         extend (scripted directory_in_the_way)
           [ko (OpenWrite "./.tool-versions") IsADirectoryError]))
  /\ DeployToolVersions.main blocked_checkout (scripted directory_in_the_way)
     = (inr IsADirectoryError,
        extend (scripted directory_in_the_way)
          [ko (OpenWrite "./.tool-versions") IsADirectoryError]).
Proof.
  split; [split |].
  - apply (bool_decide_unpack _). vm_compute. exact I.
  - reflexivity.
  - reflexivity.
Qed.

Example retitle_keeps_keywords :
  UpdateCoinIdMetadata.retitle
    [("title", JStr "Coin ID - Identifier"); ("keywords", JStr "coin")]
  = [("title", JStr "Coin ID: AI Scanner & Value");
     ("keywords", JStr "coin");
     ("subtitle", JStr "Best AI Coin Identification")].
Proof. reflexivity. Qed.

(** On a machine that fails nowhere, the document dumped into the
    locale is the loaded one with the two keys set. *)
Example update_dumps_the_retitled_document :
  map asked (history (snd (UpdateCoinIdMetadata.update_json_file en_US
                             (scripted willing))))
  = [ OpenRead en_US; JsonLoad en_US; Close en_US; OpenWrite en_US;
      JsonDump en_US
        (JObj [("title", JStr "Coin ID: AI Scanner & Value");
               ("keywords", JStr "coin");
               ("subtitle", JStr "Best AI Coin Identification")]);
      Close en_US ]
  /\ fst (UpdateCoinIdMetadata.update_json_file en_US (scripted willing)) = inl tt.
Proof. vm_compute. split; reflexivity. Qed.

(** When [json.dump] raises, the file has been opened for writing before
    and the exception reaches the caller. *)
Example update_raises_after_the_open_for_writing :
  UpdateCoinIdMetadata.update_json_file en_US (scripted dump_fails)
  = (inr UnicodeEncodeError,
     extend (scripted dump_fails)
       [ ok (OpenRead en_US); ok (JsonLoad en_US); ok (Close en_US);
         ok (OpenWrite en_US);
         ko (JsonDump en_US
               (JObj [("title", JStr "Coin ID: AI Scanner & Value");
                      ("keywords", JStr "coin");
                      ("subtitle", JStr "Best AI Coin Identification")]))
            UnicodeEncodeError;
         ok (Close en_US) ]).
Proof. reflexivity. Qed.


Lemma title_and_subtitle_rewritten_witness :
  next (scripted willing) 0 (OpenRead en_US) = inl tt
  /\ exists t,
       snd (UpdateCoinIdMetadata.update_json_file en_US (scripted willing))
       = extend (scripted willing) t
       /\ map asked t
          = [ OpenRead en_US; JsonLoad en_US; Close en_US; OpenWrite en_US;
              JsonDump en_US
                (JObj (UpdateCoinIdMetadata.retitle
                         [("title", JStr "Coin ID - Identifier");
                          ("keywords", JStr "coin")]));
              Close en_US ]
       /\ (returns (UpdateCoinIdMetadata.update_json_file en_US (scripted willing))
           <-> Forall succeeded t).
Proof.
  split; [reflexivity |].
  apply (proj1 (proj2 (proj2 UpdateRunFacts.title_and_subtitle_rewritten))
           en_US (scripted willing)); reflexivity.
Defined.

Lemma lookup_only_fresh_witness :
  Cache.deriveKey ctx Cache.ReadFile read_a = Some "k1"
  /\ fresh_store !! "k1" = Some (sized (hello_at 90 (Cache.ModificationTime 7)) 5 90)
  /\ Cache.lookup ctx Cache.ReadFile read_a fresh_store
     = (Cache.Hit "hello" 10, fresh_store).
Proof.
  split; [reflexivity |]. split; [reflexivity |].
  apply (CacheFacts.lookup_only_fresh ctx Cache.ReadFile read_a fresh_store "k1"
           (sized (hello_at 90 (Cache.ModificationTime 7)) 5 90));
    reflexivity.
Defined.

Example lookup_deletes_expired :
  Cache.lookup ctx Cache.ReadFile read_a expired_store = (Cache.Miss, ∅).
Proof. vm_compute. reflexivity. Qed.

Example lookup_deletes_stale :
  Cache.lookup ctx Cache.ReadFile read_a stale_store = (Cache.Miss, ∅).
Proof. vm_compute. reflexivity. Qed.

(** 120 bytes against a budget of 100: the oldest entry goes, and 70
    bytes are within 80%. *)
Example enforce_budget_drops_oldest :
  Cache.usage full_store = 120
  /\ Cache.enforce_budget 100 full_store = delete "a" full_store
  /\ Cache.usage (Cache.enforce_budget 100 full_store) = 70.
Proof. vm_compute. repeat split. Qed.

Lemma unlisted_kind_never_cached_witness :
  ~ Cache.listed research_only (Cache.AgentTask "writer")
  /\ Cache.router_lookup research_only eager (Cache.AgentTask "writer")
       [("prompt", "p")] 0
     = (Cache.Miss, 0)
  /\ Cache.router_store research_only eager (Cache.AgentTask "writer")
       [("prompt", "p")] "draft" 0
     = (None, 0).
Proof.
  assert (~ Cache.listed research_only (Cache.AgentTask "writer")) as Hk.
  { simpl. intros Hin. apply list_elem_of_singleton in Hin. discriminate Hin. }
  split; [exact Hk |].
  exact (CacheFacts.unlisted_kind_never_cached research_only eager
           (Cache.AgentTask "writer") [("prompt", "p")] "draft" 0 Hk).
Defined.

Example listed_kind_is_cached :
  Cache.router_lookup research_only eager (Cache.AgentTask "research")
    [("prompt", "p")] 0
  = (Cache.Hit "cached" 0, 1).
Proof. reflexivity. Qed.

End Runs.

(** ** What a walk never reads *)
Module HollowFacts.
Import Py PyFacts.

Lemma hollow_Dir (skip : list string) (es : listing) :
  hollow skip (Dir es) = Dir (hollow_entries skip es).
Proof.
  cbn [hollow]. unfold hollow_entries. f_equal.
  apply map_ext. by intros [name sub].
Qed.

Lemma hollow_is_dir (skip : list string) (name : string) (sub : node) :
  is_dir (if is_dir sub && contains name skip then Dir [] else hollow skip sub)
  = is_dir sub.
Proof. destruct sub; simpl; [done |]. by destruct (contains name skip). Qed.

Lemma hollow_dirnames (skip : list string) (es : listing) :
  dirnames (hollow_entries skip es) = dirnames es.
Proof.
  unfold dirnames, hollow_entries. induction es as [| [name sub] es IH]; [done |].
  cbn [map]. rewrite !filter_cons. cbn [fst snd]. rewrite hollow_is_dir.
  destruct (decide (is_dir sub)); cbn [map fst]; by rewrite IH.
Qed.

Lemma hollow_filenames (skip : list string) (es : listing) :
  filenames (hollow_entries skip es) = filenames es.
Proof.
  unfold filenames, hollow_entries. induction es as [| [name sub] es IH]; [done |].
  cbn [map]. rewrite !filter_cons. cbn [fst snd]. rewrite hollow_is_dir.
  destruct (decide (negb (is_dir sub))); cbn [map fst]; by rewrite IH.
Qed.

(** Files are left as they are: opening one finds the same content. *)
Lemma hollow_open_here (skip : list string) (name : string) (es : listing) :
  open_here name (hollow_entries skip es) = open_here name es.
Proof.
  unfold hollow_entries. induction es as [| [n [c | sub]] es IH]; [done | |].
  - cbn [map fst snd is_dir andb hollow open_here]. by rewrite IH.
  - cbn [map fst snd is_dir andb]. destruct (contains n skip); cbn [hollow open_here]; exact IH.
Qed.

(** A sub-directory outside [skip] is still there, hollowed in turn. *)
Lemma hollow_subdir (skip : list string) (d : string) (es : listing) :
  contains d skip = false ->
  subdir d (hollow_entries skip es) = hollow_entries skip <$> subdir d es.
Proof.
  intros Hd. unfold hollow_entries at 1.
  induction es as [| [n [c | sub]] es IH]; [done | |].
  - cbn [map fst snd is_dir andb hollow subdir]. exact IH.
  - cbn [map fst snd is_dir andb]. destruct (String.eqb_spec n d) as [-> | Hne].
    + rewrite Hd. rewrite hollow_Dir. cbn [subdir]. by rewrite String.eqb_refl.
    + destruct (contains n skip); [| rewrite hollow_Dir]; cbn [subdir];
        (destruct (String.eqb_spec n d); [done | exact IH]).
Qed.

Lemma fold_left_members {A B : Type} (f g : A -> B -> A) (l : list B) (a : A) :
  (forall x y, y ∈ l -> f x y = g x y) -> fold_left f l a = fold_left g l a.
Proof.
  revert a. induction l as [| y l IH]; intros a E; simpl; [done |].
  rewrite E by left. apply IH. intros x z Hz. apply E. by right.
Qed.

(** A loop that edits [dirs] down to the names outside [skip], and whose
    work on a directory only opens files of that directory, does the same
    on a tree and on the tree with the skipped directories emptied. *)
Lemma os_walk_hollow {S : Type} (body : loop_body S)
    (prune : list string -> list string) (skip : list string)
    (act : string -> list string -> listing -> S -> S) :
  (forall root dirs files es s,
      body root dirs files es s = (prune dirs, act root files es s)) ->
  (forall root files es s,
      act root files (hollow_entries skip es) s = act root files es s) ->
  forall n root s,
    everywhere (prunes prune skip) n ->
    os_walk body root (hollow skip n) s = os_walk body root n s.
Proof.
  intros Hbody Hact. induction n as [c | es IH] using node_nested_ind;
    intros root s Hev; [done |].
  rewrite hollow_Dir, !os_walk_Dir, !Hbody. cbn [fst snd].
  rewrite hollow_dirnames, hollow_filenames, Hact.
  apply fold_left_members. intros acc d Hd.
  destruct (proj1 (everywhere_here _ _ Hev d) Hd) as [_ Hskip].
  rewrite (hollow_subdir skip d es Hskip).
  destruct (subdir d es) as [sub |] eqn:Hsub; [| done]. cbn [fmap option_fmap option_map].
  rewrite <- hollow_Dir.
  apply (Forall_subdir _ _ _ _ IH Hsub).
  exact (everywhere_entry _ _ _ _ Hev (subdir_Some _ _ _ Hsub)).
Qed.

End HollowFacts.

(** ** [validate-pm.py] and [deploy_tool_versions.py]: pruned directories *)
Module PruningFacts.
Import Py PyFacts HollowFacts.

(** X7. Nothing inside a directory named [node_modules], [.git],
    [.yarn], [build], [dist] or [.next] is ever read by
    [check_package_managers]: emptying every such directory, at any
    depth, leaves the printed text and the exit status as they were. *)
Theorem check_never_reads_ignored_dirs `{Library} (cwd : listing) :
  ValidatePm.check_package_managers (hollow_entries ValidatePm.ignored_dirs cwd)
  = ValidatePm.check_package_managers cwd.
Proof.
  unfold ValidatePm.check_package_managers, ValidatePm.collect_errors.
  rewrite <- hollow_Dir.
  rewrite (os_walk_hollow ValidatePm.visit ValidatePm.prune
             ValidatePm.ignored_dirs ValidatePm.report); [done | done | |].
  - intros root files es s. unfold ValidatePm.report.
    by rewrite hollow_open_here.
  - apply everywhere_always, ValidatePmFacts.prune_keeps_unignored.
Qed.

(** X8. In a tree whose directories have unique names, nothing inside a
    directory named [node_modules], [.git] or [.expo] matters to the
    deployment: emptying every such directory leaves every operation the
    script asks of the machine, and its outcome, as they were, on every
    machine. *)
Theorem deploy_never_reads_skipped_dirs (cwd : listing) (w : Machine.world) :
  DeployToolVersions.unique_names (Dir cwd) = true ->
  DeployToolVersions.main (hollow_entries DeployToolVersions.skipped cwd) w
  = DeployToolVersions.main cwd w.
Proof.
  intros Hu. unfold DeployToolVersions.main. rewrite <- hollow_Dir.
  rewrite (os_walk_hollow DeployToolVersions.visit DeployToolVersions.prune
             DeployToolVersions.skipped
             (fun root files _ so_far =>
                if contains "package.json" files
                then Machine.bind so_far
                       (fun _ => DeployToolVersions.create_tool_versions root)
                else so_far)); [done | done | done |].
  by apply DeployToolVersionsFacts.unique_names_prunes.
Qed.

(** X9. When the current directory holds a [package.json], the script
    calls [create_tool_versions] on it twice, once before the walk and
    once as the first directory of the walk: a run that returns has
    opened, written and closed [./.tool-versions] twice and printed its
    line twice before anything else, and a run in which the first open
    raises ends there. *)
Theorem root_is_written_twice (cwd : listing) (w : Machine.world) :
  contains "package.json" (filenames cwd) = true ->
  exists rest,
    DeployToolVersions.targets cwd = "." :: "." :: rest
    /\ DeployToolVersions.main cwd w
       = Machine.bind (DeployToolVersions.create_tool_versions ".") (fun _ =>
           Machine.bind (DeployToolVersions.create_tool_versions ".") (fun _ =>
             Machine.for_each rest DeployToolVersions.create_tool_versions)) w
    /\ (Machine.returns (DeployToolVersions.main cwd w) ->
        exists t,
          snd (DeployToolVersions.main cwd w) = Machine.extend w t
          /\ map Machine.asked t
             = DeployToolVersions.steps "." ++ DeployToolVersions.steps "."
               ++ flat_map DeployToolVersions.steps rest
          /\ Forall Machine.succeeded t)
    /\ (forall e,
          Machine.next w 0 (Machine.OpenWrite "./.tool-versions") = inr e ->
          DeployToolVersions.main cwd w
          = (inr e, Machine.extend w
                      [Machine.ko (Machine.OpenWrite "./.tool-versions") e])).
Proof.
  intros Hpkg.
  destruct (DeployToolVersionsFacts.targets_root cwd Hpkg) as [rest Hrest].
  exists rest. split; [done |]. split; [| split].
  - rewrite DeployToolVersionsFacts.main_calls, Hrest. reflexivity.
  - intros Hret.
    destruct (DeployToolVersionsFacts.main_keeps_to cwd w) as (t & Hw & _ & Hr & _).
    destruct (Hr Hret) as [Hops Hok]. exists t. split; [done |]. split; [| done].
    rewrite Hops, Hrest. reflexivity.
  - intros e He. rewrite DeployToolVersionsFacts.main_calls, Hrest.
    cbn [Machine.for_each]. unfold Machine.bind at 1.
    unfold DeployToolVersions.create_tool_versions at 1. cbv zeta.
    unfold Machine.bind at 1.
    rewrite MachineFacts.with_open_perform.
    change (path_join "." ".tool-versions") with "./.tool-versions".
    by rewrite He.
Qed.

End PruningFacts.

(** ** Runs of the deployment on sample trees *)
Module MoreRuns.
Import Py Machine Samples Machines.

Example check_same_with_empty_node_modules :
  hollow_entries ValidatePm.ignored_dirs checkout
  = [ ("package.json", File (Text (package_json "yarn@4.12.0")));
      ("node_modules", Dir []);
      ("apps",
         Dir [ ("numy",
                  Dir [ ("package.json", File (Text (package_json "npm@10.2.0")));
                        ("package-lock.json", File (Text "{}")) ]) ]) ].
Proof. reflexivity. Qed.

Lemma deploy_never_reads_skipped_dirs_witness :
  DeployToolVersions.unique_names (Dir checkout) = true
  /\ DeployToolVersions.main (hollow_entries DeployToolVersions.skipped checkout)
       (scripted willing)
     = DeployToolVersions.main checkout (scripted willing).
Proof.
  split; [reflexivity |].
  apply (PruningFacts.deploy_never_reads_skipped_dirs checkout (scripted willing)).
  reflexivity.
Defined.

Lemma root_is_written_twice_witness :
  contains "package.json" (filenames checkout) = true
  /\ exists rest,
       DeployToolVersions.targets checkout = "." :: "." :: rest
       /\ DeployToolVersions.main checkout (scripted willing)
          = bind (DeployToolVersions.create_tool_versions ".") (fun _ =>
              bind (DeployToolVersions.create_tool_versions ".") (fun _ =>
                for_each rest DeployToolVersions.create_tool_versions))
              (scripted willing).
Proof.
  split; [reflexivity |].
  destruct (PruningFacts.root_is_written_twice checkout (scripted willing) eq_refl)
    as (rest & Ht & Hm & _).
  exists rest. split; [exact Ht | exact Hm].
Defined.

(** On a machine that fails nowhere the script rewrites the one locale
    of the listing, leaves the note alone, rewrites the configuration
    and prints its line. *)
Example main_runs_on_a_willing_machine :
  fst (UpdateCoinIdMetadata.main (scripted willing)) = inl tt
  /\ map asked (history (snd (UpdateCoinIdMetadata.main (scripted willing))))
     = ListDir UpdateCoinIdMetadata.locales_dir
       :: UpdateCoinIdMetadata.update_steps en_US
            (JObj [("title", JStr "Coin ID: AI Scanner & Value");
                   ("keywords", JStr "coin");
                   ("subtitle", JStr "Best AI Coin Identification")])
       ++ UpdateCoinIdMetadata.update_steps UpdateCoinIdMetadata.store_config_path
            (JObj [("apple",
                    JObj [("info",
                           JObj [("en-US",
                                  JObj [("title", JStr "Coin ID: AI Scanner & Value");
                                        ("subtitle",
                                         JStr "Best AI Coin Identification")])]);
                          ("bundleId", JStr "com.numy")])])
       ++ [Print UpdateCoinIdMetadata.success_line].
Proof. vm_compute. split; reflexivity. Qed.

(** With [store.config.json] missing, the script raises after the
    locale has been rewritten, and prints nothing. *)
Example main_stops_at_the_missing_config :
  UpdateCoinIdMetadata.main (scripted config_missing)
  = (inr FileNotFoundError,
     extend (scripted config_missing)
       [ ok (ListDir UpdateCoinIdMetadata.locales_dir);
         ok (OpenRead en_US); ok (JsonLoad en_US); ok (Close en_US);
         ok (OpenWrite en_US);
         ok (JsonDump en_US
               (JObj [("title", JStr "Coin ID: AI Scanner & Value");
                      ("keywords", JStr "coin");
                      ("subtitle", JStr "Best AI Coin Identification")]));
         ok (Close en_US);
         ko (OpenRead UpdateCoinIdMetadata.store_config_path) FileNotFoundError ]).
Proof. reflexivity. Qed.

Lemma locales_stay_rewritten_on_failure_witness :
  next (scripted config_missing) 0 (ListDir UpdateCoinIdMetadata.locales_dir)
  = inl ["en-US.json"; "NOTES.md"]
  /\ raises (UpdateCoinIdMetadata.main (scripted config_missing)) FileNotFoundError.
Proof.
  split; [reflexivity |].
  apply (proj1 (UpdateMainFacts.locales_stay_rewritten_on_failure
                  (scripted config_missing) ["en-US.json"; "NOTES.md"]
                  FileNotFoundError eq_refl
                  (ex_intro _ tt eq_refl) eq_refl)).
Defined.

End MoreRuns.

(** ** [validate-pm.py]: what the errors say *)
Module ReportFacts.
Import Py PyFacts ValidatePm ValidatePmFacts.

Lemma reported `{Library} (cwd : listing) (root : string) (es : listing) (e : string) :
  walked ignored_dirs "." cwd root es ->
  e ∈ report root (filenames es) es [] ->
  e ∈ collect_errors cwd.
Proof.
  intros Hw He. rewrite collect_errors_visits.
  apply visits_ignored, list_elem_of_In in Hw.
  apply list_elem_of_In, in_flat_map. exists (root, es).
  split; [done | by apply list_elem_of_In].
Qed.

Lemma report_members `{Library} (root : string) (es : listing) (e : string) :
  e ∈ report root (filenames es) es []
  <-> e ∈ forbidden root "package-lock.json" (filenames es)
      \/ e ∈ forbidden root "pnpm-lock.yaml" (filenames es)
      \/ exists c, open_here "package.json" es = Some c
                   /\ e ∈ check_package_json (path_join root "package.json") c.
Proof.
  unfold report. cbn [app].
  destruct (contains "package.json" (filenames es)) eqn:Hp.
  - apply open_here_filenames in Hp as [c Hc]. rewrite Hc. cbn [default].
    rewrite !elem_of_app. split.
    + intros [[? | ?] | ?]; [tauto | tauto | right; right; by exists c].
    + intros [? | [? | (c' & [= <-] & ?)]]; tauto.
  - rewrite elem_of_app. split; [tauto |].
    intros [? | [? | (c & Hc & _)]]; [tauto | tauto |].
    assert (contains "package.json" (filenames es) = true) as Ht
      by (apply open_here_filenames; by exists c).
    congruence.
Qed.

(** X10. Every offence found in a directory of the walk is named by its
    path in the errors: a lockfile as [Forbidden file found: <path>], and
    a [package.json] whose [packageManager] is some other value [pm] as
    [Invalid packageManager in <path>: expected 'yarn@4.12.0', found
    <repr(pm)>], where a missing field is reported as [None]. *)
Theorem offences_are_named `{Library} (cwd : listing) (root : string) (es : listing) :
  walked ignored_dirs "." cwd root es ->
  (contains "package-lock.json" (filenames es) = true ->
   "Forbidden file found: " +:+ path_join root "package-lock.json"
   ∈ collect_errors cwd)
  /\ (contains "pnpm-lock.yaml" (filenames es) = true ->
      "Forbidden file found: " +:+ path_join root "pnpm-lock.yaml"
      ∈ collect_errors cwd)
  /\ (forall t d,
        open_here "package.json" es = Some (Text t) ->
        json_load t = inl (JObj d) ->
        dict_lookup "packageManager" d <> Some (JStr "yarn@4.12.0") ->
        "Invalid packageManager in " +:+ path_join root "package.json"
        +:+ ": expected 'yarn@4.12.0', found "
        +:+ repr (default JNull (dict_lookup "packageManager" d))
        ∈ collect_errors cwd).
Proof.
  intros Hw. split; [| split].
  - intros Hc. apply (reported cwd root es); [done |]. apply report_members. left.
    unfold forbidden. rewrite Hc. left.
  - intros Hc. apply (reported cwd root es); [done |]. apply report_members.
    right. left. unfold forbidden. rewrite Hc. left.
  - intros t d Hopen Hload Hpm. apply (reported cwd root es); [done |].
    apply report_members. right. right. exists (Text t). split; [done |].
    unfold check_package_json. rewrite Hload. cbn [get_package_manager].
    assert (pm_differs (default JNull (dict_lookup "packageManager" d)) = true) as ->.
    { apply pm_differs_true. destruct (dict_lookup "packageManager" d); simpl; congruence. }
    left.
Qed.

End ReportFacts.

(** ** The named offences on the sample checkout *)
Module ReportRuns.
Import Py Samples.

Lemma offences_are_named_witness :
  walked ValidatePm.ignored_dirs "." checkout "./apps/numy"
    [ ("package.json", File (Text (package_json "npm@10.2.0")));
      ("package-lock.json", File (Text "{}")) ]
  /\ "Forbidden file found: ./apps/numy/package-lock.json"
     ∈ @ValidatePm.collect_errors sample_library checkout.
Proof.
  assert (walked ValidatePm.ignored_dirs "." checkout "./apps/numy"
            [ ("package.json", File (Text (package_json "npm@10.2.0")));
              ("package-lock.json", File (Text "{}")) ]) as Hw.
  { eapply (walked_sub _ _ _ "apps"); [reflexivity | reflexivity |].
    eapply (walked_sub _ _ _ "numy"); [reflexivity | reflexivity |].
    apply walked_top. }
  split; [exact Hw |].
  apply (proj1 (@ReportFacts.offences_are_named sample_library checkout
                  "./apps/numy" _ Hw)).
  reflexivity.
Defined.

End ReportRuns.
